(** * PFH5 pack-file reader: a shallow embedding of [pack_reader.py]

    The development follows the Python class [PFH5Reader]: the 32-byte
    header decoder [read_header], the member-index decoder
    [read_file_index], random-access extraction [extract_file] and the
    per-suffix inventory [get_file_info].

    Python integers are unbounded, so they are modelled by [Z]; [bytes]
    objects are lists of [Byte.byte]; a Python [str] is a list of Unicode
    code points; exceptions are an explicit [outcome] type. *)

From Stdlib Require Import ZArith List Lia Strings.String Strings.Byte.
From stdpp Require Import base option list gmap.

Local Open Scope Z_scope.

(** ** Exceptions and the outcome monad *)

Inductive exn : Type :=
  | ValueError (msg : String.string)
  | KeyError
  | StructError
  | OSError
  | UnicodeDecodeError.

Inductive outcome (A : Type) : Type :=
  | Returned (a : A)
  | Raised (e : exn).

Arguments Returned {A} a.
Arguments Raised {A} e.

#[global] Instance outcome_ret : MRet outcome := fun A a => Returned a.

#[global] Instance outcome_bind : MBind outcome := fun A B k m =>
  match m with
  | Returned a => k a
  | Raised e => Raised e
  end.

(** ** Byte strings *)

Definition bytes := list Byte.byte.

#[global] Instance byte_eq_decision : EqDecision Byte.byte := Byte.byte_eq_dec.

Definition byte_val (b : Byte.byte) : Z := Z.of_N (Byte.to_N b).

Definition byte_of_Z (z : Z) : Byte.byte :=
  match Byte.of_N (Z.to_N (z mod 256)) with
  | Some b => b
  | None => Byte.x00
  end.

(** Byte-string literals: from byte values and from ASCII text. *)
Definition bytes_of (l : list Z) : bytes := map byte_of_Z l.

Definition bytes_of_string (s : String.string) : bytes :=
  String.list_byte_of_string s.

(** [len(b)] *)
Definition len {A : Type} (b : list A) : Z := Z.of_nat (length b).

(** [b[lo:hi]] for non-negative [lo] and [hi], the only slices the reader
    takes; a bound past the end is clipped, as in Python. *)
Definition slice {A : Type} (b : list A) (lo hi : Z) : list A :=
  take (Z.to_nat (hi - lo)) (drop (Z.to_nat lo) b).

(** Index of the first zero byte of [b], if any. *)
Fixpoint find_zero (b : bytes) : option nat :=
  match b with
  | [] => None
  | x :: rest =>
      if Byte.eqb x Byte.x00 then Some O
      else match find_zero rest with
           | Some i => Some (S i)
           | None => None
           end
  end.

(** [b.find(b'\x00', pos)] for [0 <= pos]: the lowest index at or after
    [pos] holding a zero byte, or [-1]. *)
Definition bytes_find_nul (b : bytes) (pos : Z) : Z :=
  match find_zero (drop (Z.to_nat pos) b) with
  | Some i => pos + Z.of_nat i
  | None => -1
  end.

(** Little-endian value of a byte string. *)
Fixpoint le_uint (b : bytes) : Z :=
  match b with
  | [] => 0
  | x :: rest => byte_val x + 256 * le_uint rest
  end.

(** [struct.unpack('<I', b)[0]]: raises [struct.error] unless [b] has
    exactly four bytes. *)
Definition struct_unpack_I (b : bytes) : outcome Z :=
  if (length b =? 4)%nat then Returned (le_uint b) else Raised StructError.

(** [struct.pack('<I', n)] for [0 <= n < 2^32]. *)
Definition struct_pack_I (n : Z) : bytes :=
  [byte_of_Z n; byte_of_Z (n / 256); byte_of_Z (n / 65536);
   byte_of_Z (n / 16777216)].

(** ** Files

    The pack file is a byte string; a file object is that string and a
    cursor.  [seek] to a negative position raises; [read] with a negative
    count reads to the end of the file.  The two follow the interpreter
    on the positions and counts the reader computes from a header it has
    read: unsigned 32-bit counts, and positions that the file system can
    address, as every position up to the length of the file is.  Past
    the largest offset of the file system [seek] raises too, which
    differs from one file system to the next: what is stated about
    [extract_file] keeps the position inside the file ([inside_file]). *)

Definition file_seek (p : Z) : outcome Z :=
  if p <? 0 then Raised OSError else Returned p.

Definition file_read (file : bytes) (p n : Z) : bytes :=
  if n <? 0 then drop (Z.to_nat p) file
  else take (Z.to_nat n) (drop (Z.to_nat p) file).

(** ** Python strings: sequences of code points *)

Definition str := list Z.

Definition str_of_string (s : String.string) : str :=
  map (fun a => Z.of_N (Ascii.N_of_ascii a)) (String.list_ascii_of_string s).

(** ** Header, entries and the reader object *)

Definition PACK_TYPE_BOOT : Z := 0.
Definition PACK_TYPE_RELEASE : Z := 1.
Definition PACK_TYPE_PATCH : Z := 2.
Definition PACK_TYPE_MOD : Z := 3.
Definition PACK_TYPE_MOVIE : Z := 4.

Definition FLAG_EXTENDED_HEADER : Z := 0x100000.
Definition FLAG_INDEX_ENCRYPTED : Z := 0x008000.
Definition FLAG_TIMESTAMP_IN_INDEX : Z := 0x000400.
Definition FLAG_DATA_PADDED : Z := 0x000010.

(** The magic tag [b'PFH5']. *)
Definition PFH5_magic : bytes := [Byte.x50; Byte.x46; Byte.x48; Byte.x35].

(** The dictionary built by [read_header], as a record. *)
Record Header : Type := mkHeader {
  preamble : String.string;
  pack_type : Z;
  type_bitmask : Z;
  flags : Z;
  pf_index_count : Z;
  pf_index_size : Z;
  file_index_count : Z;
  file_index_size : Z;
  timestamp : Z;
  signature_pos : Z;
  has_extended_header : bool;
  index_encrypted : bool;
  has_timestamps : bool;
  data_padded : bool
}.

(** Python's [bool(n)] on an integer. *)
Definition truthy (n : Z) : bool := negb (n =? 0).

(** [a == b] on byte strings. *)
Definition bytes_eqb (a b : bytes) : bool := bool_decide (a = b).

(** [class PackFileEntry] *)
Record PackFileEntry : Type := mkEntry {
  entry_path : str;
  entry_size : Z;
  entry_offset : Z;
  entry_timestamp : option Z
}.

(** [class PFH5Reader]: the attributes of the object, the content of the
    file at [pack_path], and what the object has printed. *)
Record PFH5Reader : Type := mkReader {
  pack_file : bytes;
  header : option Header;
  entries : list PackFileEntry;
  file_data_offset : Z;
  stdout : list String.string
}.

(** [PFH5Reader(pack_path)] for an existing file with content [file]. *)
Definition new_reader (file : bytes) : PFH5Reader :=
  mkReader file None [] 0 [].

(** [PFH5Reader.read_header].  The message of the second [ValueError] is
    given without the tag it echoes. *)
Definition read_header (self : PFH5Reader) : outcome (PFH5Reader * Header) :=
  let header_data := file_read (pack_file self) 0 32 in
  if len header_data <? 32 then
    Raised (ValueError "Invalid pack file: header too short")
  else
    let preamble := slice header_data 0 4 in
    if negb (bytes_eqb preamble PFH5_magic) then
      Raised (ValueError "Invalid pack file: expected PFH5")
    else
      type_bitmask ← struct_unpack_I (slice header_data 4 8);
      pf_index_count ← struct_unpack_I (slice header_data 8 12);
      pf_index_size ← struct_unpack_I (slice header_data 12 16);
      file_index_count ← struct_unpack_I (slice header_data 16 20);
      file_index_size ← struct_unpack_I (slice header_data 20 24);
      timestamp ← struct_unpack_I (slice header_data 24 28);
      signature_pos ← struct_unpack_I (slice header_data 28 32);
      let pack_type := Z.land type_bitmask 0x0F in
      let flags := Z.land type_bitmask 0xFFFFFFF0 in
      let h := {|
        preamble := "PFH5";
        pack_type := pack_type;
        type_bitmask := type_bitmask;
        flags := flags;
        pf_index_count := pf_index_count;
        pf_index_size := pf_index_size;
        file_index_count := file_index_count;
        file_index_size := file_index_size;
        timestamp := timestamp;
        signature_pos := signature_pos;
        has_extended_header := truthy (Z.land flags FLAG_EXTENDED_HEADER);
        index_encrypted := truthy (Z.land flags FLAG_INDEX_ENCRYPTED);
        has_timestamps := truthy (Z.land flags FLAG_TIMESTAMP_IN_INDEX);
        data_padded := truthy (Z.land flags FLAG_DATA_PADDED)
      |} in
      Returned (mkReader (pack_file self) (Some h) (entries self)
                  (file_data_offset self) (stdout self),
                h).

(** ** Python strings and the UTF-8 decoder

    A [str] is a sequence of code points.  [bytes.decode('utf-8', errors)]
    is a library routine of the interpreter; [utf8_step] follows CPython's
    decoder (shortest form only, no surrogates, nothing above U+10FFFF),
    and reports for an ill-formed sequence how many bytes the error
    covers.  The handler named by [errors] then raises, skips those bytes,
    or puts U+FFFD in their place. *)

Inductive errors_mode : Type := Strict | Ignore | Replace.

Inductive utf8_step_result : Type :=
  | Decoded (ch : Z) (n : nat)
  | Invalid (n : nat).

Definition is_continuation (c : Z) : bool := (0x80 <=? c) && (c <? 0xC0).

Definition utf8_step (s : list Z) : utf8_step_result :=
  match s with
  | [] => Invalid 0
  | ch :: t =>
      if ch <? 0x80 then Decoded ch 1
      else if ch <? 0xC2 then Invalid 1
      else if ch <? 0xE0 then
        match t with
        | [] => Invalid 1
        | ch2 :: _ =>
            if negb (is_continuation ch2) then Invalid 1
            else Decoded (Z.shiftl ch 6 + ch2 - (Z.shiftl 0xC0 6 + 0x80)) 2
        end
      else if ch <? 0xF0 then
        match t with
        | [] => Invalid 1
        | ch2 :: t2 =>
            if negb (is_continuation ch2)
               || (if ch2 <? 0xA0 then ch =? 0xE0 else ch =? 0xED)
            then Invalid 1
            else match t2 with
                 | [] => Invalid 2
                 | ch3 :: _ =>
                     if negb (is_continuation ch3) then Invalid 2
                     else Decoded (Z.shiftl ch 12 + Z.shiftl ch2 6 + ch3
                                   - (Z.shiftl 0xE0 12 + Z.shiftl 0x80 6 + 0x80)) 3
                 end
        end
      else if ch <? 0xF5 then
        match t with
        | [] => Invalid 1
        | ch2 :: t2 =>
            if negb (is_continuation ch2)
               || (if ch2 <? 0x90 then ch =? 0xF0 else ch =? 0xF4)
            then Invalid 1
            else match t2 with
                 | [] => Invalid 2
                 | ch3 :: t3 =>
                     if negb (is_continuation ch3) then Invalid 2
                     else match t3 with
                          | [] => Invalid 3
                          | ch4 :: _ =>
                              if negb (is_continuation ch4) then Invalid 3
                              else Decoded
                                     (Z.shiftl ch 18 + Z.shiftl ch2 12
                                      + Z.shiftl ch3 6 + ch4
                                      - (Z.shiftl 0xF0 18 + Z.shiftl 0x80 12
                                         + Z.shiftl 0x80 6 + 0x80)) 4
                          end
                 end
        end
      else Invalid 1
  end.

Arguments utf8_step : simpl never.

(** The decoding loop.  [skip] counts the bytes of the sequence already
    handled that the cursor still has to pass. *)
Fixpoint utf8_decode_from (errors : errors_mode) (skip : nat) (s : list Z)
  : outcome str :=
  match s with
  | [] => Returned []
  | _ :: t =>
      match skip with
      | S k => utf8_decode_from errors k t
      | O =>
          match utf8_step s with
          | Decoded ch n =>
              rest ← utf8_decode_from errors (Nat.pred n) t;
              Returned (ch :: rest)
          | Invalid n =>
              match errors with
              | Strict => Raised UnicodeDecodeError
              | Ignore => utf8_decode_from errors (Nat.pred n) t
              | Replace =>
                  rest ← utf8_decode_from errors (Nat.pred n) t;
                  Returned (0xFFFD :: rest)
              end
          end
      end
  end.

(** [b.decode('utf-8', errors=...)] *)
Definition bytes_decode_utf8 (errors : errors_mode) (b : bytes) : outcome str :=
  utf8_decode_from errors 0 (map byte_val b).

(** ** Decoding the member index *)

(** One pass through the body of the [for] loop of [read_file_index]:
    either a [break], or the entry appended and the new cursor. *)
Inductive iteration : Type :=
  | Break
  | Continue (entry : PackFileEntry) (pos : Z).

Definition read_entry (h : Header) (file_index_data : bytes)
    (pos current_offset : Z) : outcome iteration :=
  if len file_index_data <=? pos then Returned Break
  else
    let path_end := bytes_find_nul file_index_data pos in
    if path_end =? -1 then Returned Break
    else
      file_path ← bytes_decode_utf8 Ignore (slice file_index_data pos path_end);
      let pos := path_end + 1 in
      if len file_index_data <? pos + 4 then Returned Break
      else
        size ← struct_unpack_I (slice file_index_data pos (pos + 4));
        let pos := pos + 4 in
        if has_timestamps h then
          if len file_index_data <? pos + 4 then Returned Break
          else
            timestamp ← struct_unpack_I (slice file_index_data pos (pos + 4));
            let pos := pos + 4 in
            Returned (Continue (mkEntry file_path size current_offset (Some timestamp)) pos)
        else
          Returned (Continue (mkEntry file_path size current_offset None) pos).

(** The update of [current_offset] at the end of the loop body. *)
Definition next_offset (h : Header) (current_offset size : Z) : Z :=
  if data_padded h then current_offset + ((size + 7) / 8) * 8
  else current_offset + size.

(** [for _ in range(n)] around [read_entry], with the loop variables
    [pos], [current_offset] and [entries]. *)
Fixpoint index_loop (h : Header) (file_index_data : bytes) (n : nat)
    (pos current_offset : Z) (entries : list PackFileEntry)
  : outcome (list PackFileEntry) :=
  match n with
  | O => Returned entries
  | S n' =>
      it ← read_entry h file_index_data pos current_offset;
      match it with
      | Break => Returned entries
      | Continue entry pos' =>
          index_loop h file_index_data n' pos'
            (next_offset h current_offset (entry_size entry))
            (entries ++ [entry])
      end
  end.

(** The "parse file entries" part of [read_file_index]: the loop started
    on the bytes of the index block. *)
Definition parse_file_entries (h : Header) (file_index_data : bytes)
  : outcome (list PackFileEntry) :=
  index_loop h file_index_data (Z.to_nat (file_index_count h)) 0 0 [].

(** The line printed for an encrypted index. *)
Definition encrypted_warning : String.string :=
  "⚠️  WARNING: File index is encrypted - cannot read without decryption".

(** [PFH5Reader.read_file_index] *)
Definition read_file_index (self : PFH5Reader)
  : outcome (PFH5Reader * list PackFileEntry) :=
  self ← match header self with
         | Some _ => Returned self
         | None => r ← read_header self; Returned (fst r)
         end;
  match header self with
  | None => Raised KeyError
  | Some h =>
      if index_encrypted h then
        Returned (mkReader (pack_file self) (header self) (entries self)
                    (file_data_offset self)
                    (stdout self ++ [encrypted_warning]),
                  [])
      else
        let header_size := if has_extended_header h then 32 + 20 else 32 in
        p ← file_seek (header_size + pf_index_size h);
        let file_index_data :=
          file_read (pack_file self) p (file_index_size h) in
        es ← parse_file_entries h file_index_data;
        Returned (mkReader (pack_file self) (header self) es
                    (header_size + pf_index_size h + file_index_size h)
                    (stdout self),
                  es)
  end.

(** [if not self.entries: self.read_file_index()] *)
Definition ensure_index (self : PFH5Reader) : outcome PFH5Reader :=
  match entries self with
  | [] => r ← read_file_index self; Returned (fst r)
  | _ :: _ => Returned self
  end.

(** [PFH5Reader.extract_file] with [output_path=None]. *)
Definition extract_file (self : PFH5Reader) (entry : PackFileEntry)
  : outcome (PFH5Reader * bytes) :=
  self ← ensure_index self;
  p ← file_seek (file_data_offset self + entry_offset entry);
  let data := file_read (pack_file self) p (entry_size entry) in
  Returned (self, data).

(** ** Inventory

    [Path(p).suffix] and [str.lower] belong to the Python library (pathlib
    and the Unicode tables of the interpreter); the inventory is defined
    over any implementation of the two. *)

Class StrLib : Type := {
  path_suffix : str -> str;
  str_lower : str -> str
}.

(** The value stored under each extension: [{'count': c, 'size': s}]. *)
Record ExtInfo : Type := mkExtInfo {
  ext_count : Z;
  ext_size : Z
}.

(** The dictionary returned by [get_file_info]. *)
Record FileInfo : Type := mkFileInfo {
  file_count : Z;
  total_size : Z;
  extensions : gmap str ExtInfo;
  info_header : option Header
}.

Definition no_extension : str := str_of_string ".no_extension".

Section Inventory.
Context `{StrLib}.

(** The key an entry is filed under. *)
Definition entry_ext (entry : PackFileEntry) : str :=
  let ext := str_lower (path_suffix (entry_path entry)) in
  match ext with
  | [] => no_extension
  | _ :: _ => ext
  end.

(** The body of the loop of [get_file_info] on the [extensions] dict. *)
Definition count_entry (extensions : gmap str ExtInfo) (entry : PackFileEntry)
  : gmap str ExtInfo :=
  let ext := entry_ext entry in
  let extensions :=
    match extensions !! ext with
    | None => <[ext := mkExtInfo 0 0]> extensions
    | Some _ => extensions
    end in
  let extensions :=
    alter (fun i => mkExtInfo (ext_count i + 1) (ext_size i)) ext extensions in
  alter (fun i => mkExtInfo (ext_count i) (ext_size i + entry_size entry))
    ext extensions.

(** The loop of [get_file_info], on a list of entries. *)
Definition summarize (es : list PackFileEntry) : gmap str ExtInfo :=
  foldl count_entry ∅ es.

Definition sum_sizes (es : list PackFileEntry) : Z :=
  foldl (fun total entry => total + entry_size entry) 0 es.

(** [PFH5Reader.get_file_info] *)
Definition get_file_info (self : PFH5Reader) : outcome (PFH5Reader * FileInfo) :=
  self ← ensure_index self;
  Returned (self,
            mkFileInfo (len (entries self)) (sum_sizes (entries self))
              (summarize (entries self)) (header self)).
End Inventory.

(** An implementation of [StrLib] for running the inventory: the suffix
    rule of [PurePosixPath] and lower-casing of the ASCII letters. *)

Fixpoint split_on (sep : Z) (s : str) : list str :=
  match s with
  | [] => [[]]
  | c :: t =>
      if c =? sep then [] :: split_on sep t
      else match split_on sep t with
           | [] => [[c]]
           | w :: ws => (c :: w) :: ws
           end
  end.

(** Index of the last occurrence of [c] in [s]. *)
Fixpoint rfind (c : Z) (s : str) : option nat :=
  match s with
  | [] => None
  | x :: t =>
      match rfind c t with
      | Some i => Some (S i)
      | None => if x =? c then Some O else None
      end
  end.

Definition posix_name (p : str) : str :=
  let parts :=
    filter (fun w => w ≠ [] ∧ w ≠ str_of_string ".") (split_on 47 p) in
  List.last parts [].

Definition posix_suffix (p : str) : str :=
  let name := posix_name p in
  match rfind 46 name with
  | Some i =>
      if ((0 <? i)%nat && (i <? length name - 1)%nat)%bool then drop i name
      else []
  | None => []
  end.

Definition ascii_lower (s : str) : str :=
  map (fun c => if (65 <=? c) && (c <=? 90) then c + 32 else c) s.

Definition posix_ascii : StrLib :=
  {| path_suffix := posix_suffix; str_lower := ascii_lower |}.

(** ** The index layout, as the format describes it

    A record of the member index is the path bytes, a zero byte, the size
    as four little-endian bytes and, under the timestamps flag, the
    timestamp as four more. *)

Record IndexRecord : Type := mkRecord {
  rec_path : bytes;
  rec_size : Z;
  rec_timestamp : Z
}.

Definition uint32 (n : Z) : Prop := 0 <= n < 2 ^ 32.

Definition wf_record (r : IndexRecord) : Prop :=
  (Byte.x00 ∉ rec_path r) ∧ uint32 (rec_size r) ∧ uint32 (rec_timestamp r).

Definition encode_record (with_timestamps : bool) (r : IndexRecord) : bytes :=
  rec_path r ++ [Byte.x00] ++ struct_pack_I (rec_size r)
    ++ (if with_timestamps then struct_pack_I (rec_timestamp r) else []).

Definition encode_index (with_timestamps : bool) (rs : list IndexRecord) : bytes :=
  concat (map (encode_record with_timestamps) rs).

(** [size] rounded up to the next multiple of 8. *)
Definition round_up_8 (size : Z) : Z := ((size + 7) / 8) * 8.

(** What a member adds to the running data offset. *)
Definition stride (padded : bool) (size : Z) : Z :=
  if padded then round_up_8 size else size.

(** The path of a record as the reader decodes it. *)
Definition decode_path (b : bytes) : str :=
  match bytes_decode_utf8 Ignore b with
  | Returned s => s
  | Raised _ => []
  end.

(** The sequences the decoder meets in a byte string, one after the
    other: [Some ch] for a well-formed sequence with code point [ch],
    [None] for an ill-formed one. *)
Fixpoint utf8_scan (skip : nat) (s : list Z) : list (option Z) :=
  match s with
  | [] => []
  | _ :: t =>
      match skip with
      | S k => utf8_scan k t
      | O =>
          match utf8_step s with
          | Decoded ch n => Some ch :: utf8_scan (Nat.pred n) t
          | Invalid n => None :: utf8_scan (Nat.pred n) t
          end
      end
  end.

Definition scan_bytes (b : bytes) : list (option Z) :=
  utf8_scan 0 (map byte_val b).

(** The descriptor of one record at data offset [off]. *)
Definition entry_of (h : Header) (off : Z) (r : IndexRecord) : PackFileEntry :=
  mkEntry (decode_path (rec_path r)) (rec_size r) off
    (if has_timestamps h then Some (rec_timestamp r) else None).

(** The descriptors of a list of records, the first one placed at data
    offset [off]. *)
Fixpoint entries_of (h : Header) (off : Z) (rs : list IndexRecord)
  : list PackFileEntry :=
  match rs with
  | [] => []
  | r :: rs' =>
      entry_of h off r
      :: entries_of h (off + stride (data_padded h) (rec_size r)) rs'
  end.

(** Bytes the header occupies: 32, and 20 more under the extended flag. *)
Definition header_size (h : Header) : Z :=
  if has_extended_header h then 52 else 32.

(** Where the reader looks for the member index. *)
Definition index_start (h : Header) : Z := header_size h + pf_index_size h.

(** Total of the strides of a list of entries. *)
Definition data_span (padded : bool) (es : list PackFileEntry) : Z :=
  foldr (fun e acc => stride padded (entry_size e) + acc) 0 es.

(** The 32 header bytes for given field values. *)
Definition encode_header (bitmask pf_count pf_size count index_size ts sig : Z)
  : bytes :=
  PFH5_magic ++ struct_pack_I bitmask ++ struct_pack_I pf_count
    ++ struct_pack_I pf_size ++ struct_pack_I count
    ++ struct_pack_I index_size ++ struct_pack_I ts ++ struct_pack_I sig.

(** A whole archive: header, the bytes between header and member index
    (extended header and secondary index), member index, data region. *)
Definition archive (bitmask count : Z) (skipped index data : bytes) : bytes :=
  let ext := if Z.testbit bitmask 20 then 20 else 0 in
  encode_header bitmask 0 (len skipped - ext) count (len index) 0 0
    ++ skipped ++ index ++ data.

(** The record at the start of [rest] and the bytes after it: what the
    loop body reads from its cursor on, written on the remaining bytes. *)
Definition decode_record (with_timestamps : bool) (rest : bytes)
  : option (IndexRecord * bytes) :=
  match find_zero rest with
  | None => None
  | Some i =>
      let after_path := drop (S i) rest in
      if (length after_path <? 4)%nat then None
      else
        let after_size := drop 4 after_path in
        if with_timestamps then
          if (length after_size <? 4)%nat then None
          else Some (mkRecord (take i rest) (le_uint (take 4 after_path))
                       (le_uint (take 4 after_size)),
                     drop 4 after_size)
        else Some (mkRecord (take i rest) (le_uint (take 4 after_path)) 0,
                   after_size)
  end.

(** ** The header layout, as the format describes it

    Magic at offset 0, then seven little-endian 32-bit fields; the low
    nibble of the bitmask is the archive kind, and bits 20, 15, 10 and 4
    are the flags. *)

Definition field_at (file : bytes) (off : Z) : Z :=
  le_uint (slice file off (off + 4)).

Definition layout_header (file : bytes) : Header :=
  let bitmask := field_at file 4 in
  {| preamble := "PFH5";
     pack_type := bitmask mod 16;
     type_bitmask := bitmask;
     flags := Z.land bitmask 0xFFFFFFF0;
     pf_index_count := field_at file 8;
     pf_index_size := field_at file 12;
     file_index_count := field_at file 16;
     file_index_size := field_at file 20;
     timestamp := field_at file 24;
     signature_pos := field_at file 28;
     has_extended_header := Z.testbit bitmask 20;
     index_encrypted := Z.testbit bitmask 15;
     has_timestamps := Z.testbit bitmask 10;
     data_padded := Z.testbit bitmask 4 |}.

(** [self.header = h] *)
Definition set_header (self : PFH5Reader) (h : Header) : PFH5Reader :=
  mkReader (pack_file self) (Some h) (entries self) (file_data_offset self)
    (stdout self).

(** The header alone, out of the result of [read_header]. *)
Definition header_result (self : PFH5Reader) : outcome Header :=
  r ← read_header self; Returned (snd r).

(** The bytes [read_file_index] hands to its loop. *)
Definition index_bytes (self : PFH5Reader) (h : Header) : bytes :=
  file_read (pack_file self) (index_start h) (file_index_size h).

(** The reader after a successful [read_file_index] on a clear index. *)
Definition indexed (self : PFH5Reader) (h : Header) (es : list PackFileEntry)
  : PFH5Reader :=
  mkReader (pack_file self) (Some h) es
    (header_size h + pf_index_size h + file_index_size h) (stdout self).

(** The reader after [read_file_index] on an encrypted index. *)
Definition warned (self : PFH5Reader) (h : Header) : PFH5Reader :=
  mkReader (pack_file self) (Some h) (entries self) (file_data_offset self)
    (stdout self ++ [encrypted_warning]).

(** [data] starts with [n] complete, well-formed records. *)
Definition holds_records (with_timestamps : bool) (n : nat) (data : bytes)
  : Prop :=
  exists (rs : list IndexRecord) (tail : bytes),
    Forall wf_record rs /\ length rs = n
    /\ data = encode_index with_timestamps rs ++ tail.

#[global] Instance uint32_dec (n : Z) : Decision (uint32 n).
Proof. unfold uint32. apply _. Defined.

#[global] Instance wf_record_dec (r : IndexRecord) : Decision (wf_record r).
Proof. unfold wf_record. apply _. Defined.

(** Closed decidable facts about the samples are settled by evaluation. *)
Ltac by_evaluation := apply (bool_decide_unpack _); vm_compute; exact I.

(** A reader on [file] whose header has been read. *)
Definition opened (file : bytes) : PFH5Reader :=
  set_header (new_reader file) (layout_header file).

(** ** The inventory, as a grouping *)

Definition Zsum (l : list Z) : Z := foldr Z.add 0 l.

Section Groups.
Context `{StrLib}.

(** The entries filed under key [k]. *)
Definition group (k : str) (es : list PackFileEntry) : list PackFileEntry :=
  filter (fun e => entry_ext e = k) es.

(** Count and total size of a group, on top of what the dictionary
    already holds under the key. *)
Definition tally (base : option ExtInfo) (g : list PackFileEntry)
  : option ExtInfo :=
  match g with
  | [] => base
  | _ :: _ =>
      let b := default (mkExtInfo 0 0) base in
      Some (mkExtInfo (ext_count b + len g)
              (ext_size b + Zsum (map entry_size g)))
  end.
End Groups.

(** A record without the timestamps flag carries no timestamp. *)
Definition normal_record (ts : bool) (r : IndexRecord) : IndexRecord :=
  mkRecord (rec_path r) (rec_size r) (if ts then rec_timestamp r else 0).

(** ** Sample archives *)

Definition rec_a : IndexRecord := mkRecord (bytes_of_string "a.txt") 3 0.
Definition rec_b : IndexRecord := mkRecord (bytes_of_string "b.txt") 2 0.

(** Two members ["a.txt"] and ["b.txt"] holding ["foo"] and ["hi"]. *)
Definition sample_plain : bytes :=
  archive 0 2 [] (encode_index false [rec_a; rec_b]) (bytes_of_string "foohi").

(** The same index without the size field of the last member. *)
Definition sample_truncated : bytes :=
  archive 0 2 []
    (encode_record false rec_a ++ bytes_of_string "b.txt" ++ [Byte.x00])
    (bytes_of_string "foo").

(** The same archive with the last byte of the data region missing. *)
Definition sample_short_data : bytes :=
  archive 0 2 [] (encode_index false [rec_a; rec_b]) (bytes_of_string "fooh").

(** Index-encrypted flag set. *)
Definition sample_encrypted : bytes :=
  archive 0x8000 2 [] (bytes_of [0x13; 0x37; 0x00; 0x42; 0x42; 0x42; 0x42]) [].

(** Padding, timestamps and an extended header, with five bytes of
    secondary index. *)
Definition sample_padded : bytes :=
  archive 0x100413 3 (repeat Byte.xee 25)
    (encode_index true
       [mkRecord (bytes_of_string "a.bin") 3 7;
        mkRecord (bytes_of_string "b.bin") 8 9;
        mkRecord (bytes_of_string "c") 10 1])
    (repeat Byte.x2a 32).

(** One member declared with 1000 bytes, and no data region. *)
Definition rec_big : IndexRecord := mkRecord (bytes_of_string "a") 1000 0.

Definition sample_dataless : bytes :=
  archive 0 1 [] (encode_index false [rec_big]) [].

(** A path that is not UTF-8: the bytes [61 FF 62]. *)
Definition rec_latin : IndexRecord := mkRecord (bytes_of [0x61; 0xFF; 0x62]) 1 0.

Definition sample_latin : bytes :=
  archive 0 1 [] (encode_index false [rec_latin]) (bytes_of_string "x").

(** The descriptors of the sample archives. *)
Definition entry_a : PackFileEntry := mkEntry (str_of_string "a.txt") 3 0 None.
Definition entry_b : PackFileEntry := mkEntry (str_of_string "b.txt") 2 3 None.

Definition padded_entries : list PackFileEntry :=
  [mkEntry (str_of_string "a.bin") 3 0 (Some 7);
   mkEntry (str_of_string "b.bin") 8 8 (Some 9);
   mkEntry (str_of_string "c") 10 16 (Some 1)].

(** The reader on the two-member archive, index read. *)
Definition plain_reader : PFH5Reader :=
  indexed (opened sample_plain) (layout_header sample_plain)
    [entry_a; entry_b].

(** The reader on the archive with a short data region, index read. *)
Definition short_reader : PFH5Reader :=
  indexed (opened sample_short_data) (layout_header sample_short_data)
    [entry_a; entry_b].

(** ** Listing and searching

    [needle in hay], [s.startswith(prefix)] and [s.endswith(suffix)] on
    strings. *)

Fixpoint str_startswith (s prefix : str) : bool :=
  match prefix, s with
  | [], _ => true
  | _ :: _, [] => false
  | a :: prefix', b :: s' => (a =? b) && str_startswith s' prefix'
  end.

Fixpoint str_contains (needle hay : str) : bool :=
  str_startswith hay needle
  || match hay with
     | [] => false
     | _ :: hay' => str_contains needle hay'
     end.

Definition str_endswith (s suffix : str) : bool :=
  (length suffix <=? length s)%nat
  && bool_decide (drop (length s - length suffix) s = suffix).

Section Listing.
Context `{StrLib}.

(** [PFH5Reader.list_files]; [pattern] is [None] by default, and an empty
    pattern is as good as none. *)
Definition list_files (self : PFH5Reader) (pattern : option str)
  : outcome (PFH5Reader * list PackFileEntry) :=
  self ← ensure_index self;
  match pattern with
  | Some (c :: p) =>
      let pattern_lower := str_lower (c :: p) in
      Returned (self,
                List.filter
                  (fun e => str_contains pattern_lower
                              (str_lower (entry_path e)))
                  (entries self))
  | _ => Returned (self, entries self)
  end.
End Listing.

(** The search of the [extract] command of [main] for the entry to
    extract: the first entry whose path is, or ends with, [file_path]. *)
Fixpoint find_entry (file_path : str) (es : list PackFileEntry)
  : option PackFileEntry :=
  match es with
  | [] => None
  | e :: rest =>
      if bool_decide (entry_path e = file_path)
         || str_endswith (entry_path e) file_path
      then Some e
      else find_entry file_path rest
  end.

(** ** Building archives

    A member is a path, its bytes and a timestamp; the data region holds
    the bytes of the members one after the other, each filled up with
    zero bytes to a multiple of 8 under the data-padded flag. *)

Record Member : Type := mkMember {
  member_path : bytes;
  member_data : bytes;
  member_time : Z
}.

Definition member_record (m : Member) : IndexRecord :=
  mkRecord (member_path m) (len (member_data m)) (member_time m).

Definition wf_member (m : Member) : Prop := wf_record (member_record m).

Definition member_chunk (padded : bool) (m : Member) : bytes :=
  member_data m
  ++ replicate
       (Z.to_nat (stride padded (len (member_data m)) - len (member_data m)))
       Byte.x00.

Definition encode_data (padded : bool) (ms : list Member) : bytes :=
  concat (map (member_chunk padded) ms).

(** The archive with kind and flags [bitmask] holding [ms]; [skipped] is
    what lies between header and member index. *)
Definition build_archive (bitmask : Z) (skipped : bytes) (ms : list Member)
  : bytes :=
  archive bitmask (len ms) skipped
    (encode_index (Z.testbit bitmask 10) (map member_record ms))
    (encode_data (Z.testbit bitmask 4) ms).

(** What [bitmask] and [skipped] must satisfy for [build_archive] to give
    an archive with a readable index. *)
Definition buildable (bitmask : Z) (skipped : bytes) (ms : list Member)
  : Prop :=
  uint32 bitmask
  /\ Z.testbit bitmask 15 = false
  /\ (if Z.testbit bitmask 20 then 20 else 0) <= len skipped
  /\ uint32 (len skipped)
  /\ uint32 (len ms)
  /\ uint32 (len (encode_index (Z.testbit bitmask 10) (map member_record ms)))
  /\ Forall wf_member ms.

(** The header [read_header] finds in such an archive. *)
Definition built_header (bitmask : Z) (skipped : bytes) (ms : list Member)
  : Header :=
  mkHeader "PFH5" (bitmask mod 16) bitmask (Z.land bitmask 0xFFFFFFF0) 0
    (len skipped - (if Z.testbit bitmask 20 then 20 else 0)) (len ms)
    (len (encode_index (Z.testbit bitmask 10) (map member_record ms))) 0 0
    (Z.testbit bitmask 20) (Z.testbit bitmask 15)
    (Z.testbit bitmask 10) (Z.testbit bitmask 4).

(** The reader on such an archive once the index is read. *)
Definition built_reader (bitmask : Z) (skipped : bytes) (ms : list Member)
  : PFH5Reader :=
  indexed
    (set_header (new_reader (build_archive bitmask skipped ms))
       (built_header bitmask skipped ms))
    (built_header bitmask skipped ms)
    (entries_of (built_header bitmask skipped ms) 0 (map member_record ms)).

(** Three members for the examples. *)
Definition sample_members : list Member :=
  [mkMember (bytes_of_string "db/a.tsv") (bytes_of_string "alpha") 11;
   mkMember (bytes_of_string "b.bin") (bytes_of_string "0123456789") 12;
   mkMember (bytes_of_string "text/c.loc") [] 13].

(** Sums of the per-extension counts and sizes of an inventory. *)
Definition total_count (m : gmap str ExtInfo) : Z :=
  map_fold (fun _ i acc => ext_count i + acc) 0 m.

Definition total_ext_size (m : gmap str ExtInfo) : Z :=
  map_fold (fun _ i acc => ext_size i + acc) 0 m.

(** A Unicode scalar value other than U+0000. *)
Definition scalar_value (c : Z) : Prop :=
  0 < c <= 0x10FFFF /\ ~ (0xD800 <= c <= 0xDFFF).

(** A position of [file] that [seek] reaches on every file system: one
    that is not past the end of the file. *)
Definition inside_file (file : bytes) (p : Z) : Prop := 0 <= p <= len file.

#[global] Instance inside_file_dec (file : bytes) (p : Z)
  : Decision (inside_file file p).
Proof. unfold inside_file. apply _. Defined.

(** The lower-cased suffix of the path of an entry. *)
Definition entry_suffix `{StrLib} (entry : PackFileEntry) : str :=
  str_lower (path_suffix (entry_path entry)).

(** What the dictionary holds for the entries [g] of one key: nothing
    when there are none, else their number and the sum of their sizes. *)
Definition group_info (g : list PackFileEntry) : option ExtInfo :=
  match g with
  | [] => None
  | _ :: _ => Some (mkExtInfo (len g) (Zsum (map entry_size g)))
  end.

(** Two members: one without suffix, and one whose suffix in lower case
    is the text the inventory uses for entries without suffix. *)
Definition sentinel_members : list Member :=
  [mkMember (bytes_of_string "README") (bytes_of_string "hello") 0;
   mkMember (bytes_of_string "x.NO_EXTENSION") (bytes_of_string "sevenby") 0].

Definition sample_sentinel : bytes := build_archive 3 [] sentinel_members.

(** * Properties *)

(** ** Bytes and little-endian integers *)

Lemma byte_val_range (b : Byte.byte) : 0 <= byte_val b < 256.
Proof.
  unfold byte_val. pose proof (Byte.to_N_bounded b). lia.
Qed.

Lemma byte_val_of_Z (z : Z) : byte_val (byte_of_Z z) = z mod 256.
Proof.
  unfold byte_of_Z, byte_val.
  pose proof (Z.mod_pos_bound z 256 ltac:(lia)) as Hr.
  destruct (Byte.of_N (Z.to_N (z mod 256))) as [b|] eqn:E.
  - apply Byte.to_of_N in E. rewrite E. lia.
  - apply Byte.of_N_None_iff in E. lia.
Qed.

Lemma byte_of_Z_val (b : Byte.byte) : byte_of_Z (byte_val b) = b.
Proof.
  unfold byte_of_Z. pose proof (byte_val_range b) as Hr.
  rewrite Z.mod_small by lia. unfold byte_val.
  rewrite N2Z.id, Byte.of_to_N. reflexivity.
Qed.

Lemma byte_of_Z_unique (z : Z) (b : Byte.byte) :
  z mod 256 = byte_val b -> byte_of_Z z = b.
Proof.
  intros E. rewrite <- (byte_of_Z_val b), <- E.
  unfold byte_of_Z. rewrite Z.mod_mod by lia. reflexivity.
Qed.

Lemma byte_val_zero (b : Byte.byte) : byte_val b = 0 <-> b = Byte.x00.
Proof.
  split.
  - intros E. rewrite <- (byte_of_Z_val b), E. reflexivity.
  - intros ->. reflexivity.
Qed.

Lemma le_uint_range (b : bytes) : 0 <= le_uint b < 256 ^ len b.
Proof.
  unfold len. induction b as [|x b IH]; simpl le_uint.
  - simpl. lia.
  - pose proof (byte_val_range x).
    replace (Z.of_nat (length (x :: b))) with (Z.succ (Z.of_nat (length b)))
      by (simpl length; lia).
    rewrite Z.pow_succ_r by lia. lia.
Qed.

Lemma unpack_pack (n : Z) :
  uint32 n -> struct_unpack_I (struct_pack_I n) = Returned n.
Proof.
  intros [Hlo Hhi]. unfold struct_unpack_I, struct_pack_I.
  simpl length. simpl Nat.eqb. cbv iota. f_equal.
  simpl le_uint. rewrite !byte_val_of_Z.
  change (2 ^ 32) with 4294967296 in Hhi.
  Z.div_mod_to_equations. lia.
Qed.

Lemma pack_le_uint (b : bytes) :
  length b = 4%nat -> struct_pack_I (le_uint b) = b.
Proof.
  intros Hl.
  destruct b as [|b0 [|b1 [|b2 [|b3 [|? ?]]]]]; simplify_eq/=.
  pose proof (byte_val_range b0). pose proof (byte_val_range b1).
  pose proof (byte_val_range b2). pose proof (byte_val_range b3).
  unfold struct_pack_I.
  repeat f_equal; apply byte_of_Z_unique;
    Z.div_mod_to_equations; lia.
Qed.

Lemma unpack_length (b : bytes) :
  length b = 4%nat ->
  struct_unpack_I b = Returned (le_uint b) /\ uint32 (le_uint b).
Proof.
  intros Hl. unfold struct_unpack_I. rewrite Hl. split; [reflexivity|].
  pose proof (le_uint_range b) as Hr. unfold len in Hr. rewrite Hl in Hr.
  exact Hr.
Qed.

Lemma pack_length (n : Z) : length (struct_pack_I n) = 4%nat.
Proof. reflexivity. Qed.

(** ** Lengths, slices and the search for the terminator *)

Lemma len_app {A : Type} (a b : list A) : len (a ++ b) = len a + len b.
Proof. unfold len. rewrite length_app. lia. Qed.

Lemma len_nonneg {A : Type} (a : list A) : 0 <= len a.
Proof. unfold len. lia. Qed.

Lemma slice_from_cursor {A : Type} (pre rest : list A) (a b : Z) :
  0 <= a ->
  slice (pre ++ rest) (len pre + a) (len pre + b)
  = take (Z.to_nat (b - a)) (drop (Z.to_nat a) rest).
Proof.
  intros Ha. unfold slice, len.
  replace (Z.of_nat (length pre) + b - (Z.of_nat (length pre) + a))
    with (b - a) by lia.
  replace (Z.to_nat (Z.of_nat (length pre) + a))
    with (length pre + Z.to_nat a)%nat by lia.
  rewrite drop_app_add. reflexivity.
Qed.

Lemma byte_eqb_x00 (x : Byte.byte) :
  Byte.eqb x Byte.x00 = true <-> x = Byte.x00.
Proof.
  split; [apply Byte.byte_dec_bl | apply Byte.byte_dec_lb].
Qed.

Lemma find_zero_Some (b : bytes) (i : nat) :
  find_zero b = Some i ->
  (Byte.x00 ∉ take i b) /\ b = take i b ++ Byte.x00 :: drop (S i) b.
Proof.
  revert i. induction b as [|x b IH]; intros i; simpl; [discriminate|].
  destruct (Byte.eqb x Byte.x00) eqn:E.
  - intros [= <-]. apply byte_eqb_x00 in E. subst x. simpl.
    split; [apply not_elem_of_nil | reflexivity].
  - destruct (find_zero b) as [j|] eqn:Ej; [|discriminate].
    intros [= <-]. destruct (IH j eq_refl) as [Hn Hb]. simpl. split.
    + apply not_elem_of_cons. split; [|exact Hn].
      intros Hx. symmetry in Hx. apply byte_eqb_x00 in Hx. congruence.
    + f_equal. exact Hb.
Qed.

Lemma find_zero_None (b : bytes) : find_zero b = None -> Byte.x00 ∉ b.
Proof.
  induction b as [|x b IH]; simpl; intros E; [apply not_elem_of_nil|].
  destruct (Byte.eqb x Byte.x00) eqn:Ex; [discriminate|].
  destruct (find_zero b); [discriminate|].
  apply not_elem_of_cons. split; [|auto].
  intros Hx. symmetry in Hx. apply byte_eqb_x00 in Hx. congruence.
Qed.

Lemma find_zero_app (p rest : bytes) :
  Byte.x00 ∉ p -> find_zero (p ++ Byte.x00 :: rest) = Some (length p).
Proof.
  induction p as [|x p IH]; simpl; intros Hn; [reflexivity|].
  apply not_elem_of_cons in Hn as [Hx Hp].
  destruct (Byte.eqb x Byte.x00) eqn:E.
  - apply byte_eqb_x00 in E. congruence.
  - rewrite (IH Hp). reflexivity.
Qed.

Lemma find_zero_lt (b : bytes) (i : nat) :
  find_zero b = Some i -> (i < length b)%nat.
Proof.
  intros E. apply find_zero_Some in E as [_ E].
  apply (f_equal length) in E.
  rewrite length_app, length_take in E. simpl in E. lia.
Qed.

(** ** The decoder with the [ignore] handler never raises *)

Lemma utf8_ignore_total (s : list Z) (skip : nat) :
  exists r, utf8_decode_from Ignore skip s = Returned r.
Proof.
  revert skip. induction s as [|c t IH]; intros skip; simpl; [eauto|].
  destruct skip as [|k]; [|apply IH].
  destruct (utf8_step (c :: t)) as [ch n|n].
  - destruct (IH (Nat.pred n)) as [r ->]. simpl. eauto.
  - apply IH.
Qed.

(** The decoder on well-formed and ill-formed input. *)

Example utf8_well_formed :
  bytes_decode_utf8 Strict
    (bytes_of [0x61; 0xC3; 0xA9; 0xE2; 0x82; 0xAC; 0xF0; 0x9F; 0x98; 0x80])
  = Returned [0x61; 0xE9; 0x20AC; 0x1F600].
Proof. vm_compute. reflexivity. Qed.

Example utf8_truncated_sequence :
  bytes_decode_utf8 Replace (bytes_of [0xE2; 0x82; 0x41])
  = Returned [0xFFFD; 0x41]
  /\ bytes_decode_utf8 Ignore (bytes_of [0xE2; 0x82; 0x41]) = Returned [0x41]
  /\ bytes_decode_utf8 Strict (bytes_of [0xE2; 0x82; 0x41])
     = Raised UnicodeDecodeError.
Proof.
  split; [vm_compute; reflexivity|].
  split; vm_compute; reflexivity.
Qed.

Example utf8_overlong_and_surrogate :
  bytes_decode_utf8 Replace (bytes_of [0xC0; 0x80]) = Returned [0xFFFD; 0xFFFD]
  /\ bytes_decode_utf8 Replace (bytes_of [0xED; 0xA0; 0x80])
     = Returned [0xFFFD; 0xFFFD; 0xFFFD]
  /\ bytes_decode_utf8 Ignore (bytes_of [0xED; 0xA0; 0x80]) = Returned [].
Proof.
  split; [vm_compute; reflexivity|].
  split; vm_compute; reflexivity.
Qed.

Lemma decode_ignore_returns (b : bytes) :
  bytes_decode_utf8 Ignore b = Returned (decode_path b).
Proof.
  unfold decode_path.
  destruct (utf8_ignore_total (map byte_val b) 0) as [r E].
  unfold bytes_decode_utf8. rewrite E. reflexivity.
Qed.

(** ** One loop iteration, read from the cursor on *)

Lemma slice_at {A : Type} (pre rest : list A) (lo hi : Z) (a n : nat) :
  lo = len pre + Z.of_nat a -> hi = lo + Z.of_nat n ->
  slice (pre ++ rest) lo hi = take n (drop a rest).
Proof.
  intros -> ->.
  replace (len pre + Z.of_nat a + Z.of_nat n)
    with (len pre + (Z.of_nat a + Z.of_nat n)) by lia.
  rewrite slice_from_cursor by lia.
  f_equal; [lia | f_equal; lia].
Qed.

Lemma find_nul_at (pre rest : bytes) :
  bytes_find_nul (pre ++ rest) (len pre)
  = match find_zero rest with
    | Some i => len pre + Z.of_nat i
    | None => -1
    end.
Proof.
  unfold bytes_find_nul, len. rewrite Nat2Z.id, drop_app_length. reflexivity.
Qed.

Lemma read_entry_decode_record (h : Header) (pre rest : bytes) (off : Z) :
  read_entry h (pre ++ rest) (len pre) off
  = Returned
      match decode_record (has_timestamps h) rest with
      | None => Break
      | Some (r, rest') =>
          Continue (entry_of h off r) (len pre + len rest - len rest')
      end.
Proof.
  unfold read_entry, decode_record. rewrite find_nul_at, len_app.
  pose proof (len_nonneg pre) as Hpre.
  destruct (find_zero rest) as [i|] eqn:Ei.
  2:{ destruct (_ <=? _); reflexivity. }
  pose proof (find_zero_lt _ _ Ei) as Hi.
  assert (Hlen : len rest = Z.of_nat (length rest)) by reflexivity.
  destruct (Z.leb_spec (len pre + len rest) (len pre)); [lia|].
  destruct (Z.eqb_spec (len pre + Z.of_nat i) (-1)); [lia|].
  rewrite (slice_at pre rest (len pre) _ 0 i) by lia.
  rewrite drop_0, decode_ignore_returns. cbn [mbind outcome_bind].
  rewrite length_drop.
  destruct (Z.ltb_spec (len pre + len rest) (len pre + Z.of_nat i + 1 + 4));
    destruct (Nat.ltb_spec (length rest - S i) 4); try lia; [reflexivity|].
  rewrite (slice_at pre rest (len pre + Z.of_nat i + 1)
             (len pre + Z.of_nat i + 1 + 4) (S i) 4) by lia.
  destruct (unpack_length (take 4 (drop (S i) rest))) as [-> _].
  { rewrite length_take, length_drop. lia. }
  cbn [mbind outcome_bind].
  destruct (has_timestamps h) eqn:Ets.
  - rewrite length_drop, length_drop.
    destruct (Z.ltb_spec (len pre + len rest)
                (len pre + Z.of_nat i + 1 + 4 + 4));
      destruct (Nat.ltb_spec (length rest - S i - 4) 4); try lia;
      [reflexivity|].
    rewrite (slice_at pre rest (len pre + Z.of_nat i + 1 + 4)
               (len pre + Z.of_nat i + 1 + 4 + 4) (S i + 4) 4) by lia.
    rewrite drop_drop.
    destruct (unpack_length (take 4 (drop (S i + 4) rest))) as [-> _].
    { rewrite length_take, length_drop. lia. }
    cbn [mbind outcome_bind]. unfold entry_of. rewrite Ets. cbn.
    do 2 f_equal. unfold len. rewrite drop_drop, length_drop. lia.
  - unfold entry_of. rewrite Ets. cbn.
    do 2 f_equal. unfold len. rewrite drop_drop, length_drop. lia.
Qed.

Lemma le_uint_pack (n : Z) : uint32 n -> le_uint (struct_pack_I n) = n.
Proof.
  intros Hn. pose proof (unpack_pack n Hn) as E.
  unfold struct_unpack_I in E.
  change (length (struct_pack_I n) =? 4)%nat with true in E.
  injection E as E. exact E.
Qed.

Lemma decode_record_Some (ts : bool) (rest : bytes) (r : IndexRecord)
    (rest' : bytes) :
  decode_record ts rest = Some (r, rest') ->
  wf_record r /\ rest = encode_record ts r ++ rest'.
Proof.
  unfold decode_record.
  destruct (find_zero rest) as [i|] eqn:Ei; [|discriminate].
  destruct (find_zero_Some _ _ Ei) as [Hnz Hsplit].
  set (ap := drop (S i) rest) in *.
  destruct (Nat.ltb_spec (length ap) 4) as [|Hap]; [discriminate|].
  assert (Hsz : length (take 4 ap) = 4%nat) by (rewrite length_take; lia).
  destruct (unpack_length _ Hsz) as [_ Hu].
  assert (Hz : uint32 0) by (unfold uint32; lia).
  destruct ts.
  - set (az := drop 4 ap) in *.
    destruct (Nat.ltb_spec (length az) 4) as [|Haz]; [discriminate|].
    assert (Hts : length (take 4 az) = 4%nat) by (rewrite length_take; lia).
    destruct (unpack_length _ Hts) as [_ Hv].
    intros [= <- <-]. split; [exact (conj Hnz (conj Hu Hv))|].
    unfold encode_record. simpl rec_path. simpl rec_size. simpl rec_timestamp.
    rewrite !pack_le_uint by assumption.
    rewrite <- !app_assoc. rewrite (take_drop 4 az).
    subst az. rewrite (take_drop 4 ap). exact Hsplit.
  - intros [= <- <-]. split; [exact (conj Hnz (conj Hu Hz))|].
    unfold encode_record. simpl rec_path. simpl rec_size.
    rewrite !pack_le_uint by assumption.
    rewrite <- !app_assoc. simpl app. rewrite (take_drop 4 ap). exact Hsplit.
Qed.

Lemma decode_record_encode (ts : bool) (r : IndexRecord) (rest' : bytes) :
  wf_record r ->
  decode_record ts (encode_record ts r ++ rest')
  = Some (normal_record ts r, rest').
Proof.
  intros (Hnz & Hsz & Hts). unfold decode_record, encode_record.
  rewrite <- !app_assoc. simpl app at 1.
  rewrite (find_zero_app _ _ Hnz).
  rewrite take_app_length.
  replace (drop (S (length (rec_path r))) _)
    with (struct_pack_I (rec_size r)
            ++ (if ts then struct_pack_I (rec_timestamp r) else []) ++ rest').
  2:{ replace (S (length (rec_path r))) with (length (rec_path r) + 1)%nat
        by lia.
      rewrite drop_app_add. reflexivity. }
  rewrite length_app, pack_length. simpl Nat.ltb.
  rewrite (take_app_length' _ _ 4) by reflexivity.
  rewrite (drop_app_length' _ _ 4) by reflexivity.
  rewrite le_uint_pack by assumption.
  destruct ts.
  - rewrite length_app, pack_length. simpl Nat.ltb.
    rewrite (take_app_length' _ _ 4) by reflexivity.
    rewrite (drop_app_length' _ _ 4) by reflexivity.
    rewrite le_uint_pack by assumption. reflexivity.
  - reflexivity.
Qed.

Lemma decode_record_None (ts : bool) (rest : bytes) :
  decode_record ts rest = None ->
  forall r rest', wf_record r -> rest <> encode_record ts r ++ rest'.
Proof.
  intros E r rest' Hwf ->. rewrite decode_record_encode in E by assumption.
  discriminate.
Qed.

Lemma entry_of_normal (h : Header) (off : Z) (r : IndexRecord) :
  entry_of h off (normal_record (has_timestamps h) r) = entry_of h off r.
Proof.
  unfold entry_of, normal_record. simpl. destruct (has_timestamps h); reflexivity.
Qed.

Lemma next_offset_stride (h : Header) (off size : Z) :
  next_offset h off size = off + stride (data_padded h) size.
Proof.
  unfold next_offset, stride, round_up_8. destruct (data_padded h); reflexivity.
Qed.

Lemma entries_of_cons (h : Header) (off : Z) (r : IndexRecord)
    (rs : list IndexRecord) :
  entries_of h off (r :: rs)
  = entry_of h off r :: entries_of h (off + stride (data_padded h) (rec_size r)) rs.
Proof. reflexivity. Qed.

(** ** The loop decodes records, and only records *)

Lemma index_loop_sound (h : Header) (n : nat) :
  forall (pre rest : bytes) (off : Z) (acc : list PackFileEntry),
  exists (rs : list IndexRecord) (rest' : bytes),
    Forall wf_record rs
    /\ rest = encode_index (has_timestamps h) rs ++ rest'
    /\ (length rs <= n)%nat
    /\ index_loop h (pre ++ rest) n (len pre) off acc
       = Returned (acc ++ entries_of h off rs)
    /\ ((length rs < n)%nat -> decode_record (has_timestamps h) rest' = None).
Proof.
  induction n as [|n IH]; intros pre rest off acc.
  - exists [], rest. simpl. rewrite app_nil_r.
    repeat split; [constructor | lia | lia].
  - cbn [index_loop]. rewrite read_entry_decode_record.
    cbn [mbind outcome_bind].
    destruct (decode_record (has_timestamps h) rest) as [[r rest1]|] eqn:Ed.
    + destruct (decode_record_Some _ _ _ _ Ed) as [Hwf Hrest].
      destruct (IH (pre ++ encode_record (has_timestamps h) r) rest1
                  (next_offset h off (entry_size (entry_of h off r)))
                  (acc ++ [entry_of h off r]))
        as (rs & rest' & Hrs & Hrest1 & Hlen & Hloop & Hstop).
      exists (r :: rs), rest'.
      split; [constructor; assumption|].
      split; [unfold encode_index in *; simpl; rewrite <- app_assoc; congruence|].
      split; [simpl; lia|].
      split.
      * replace (len pre + len rest - len rest1)
          with (len (pre ++ encode_record (has_timestamps h) r))
          by (rewrite Hrest, !len_app; lia).
        replace (pre ++ rest)
          with ((pre ++ encode_record (has_timestamps h) r) ++ rest1)
          by (rewrite Hrest, app_assoc; reflexivity).
        rewrite Hloop, entries_of_cons, <- app_assoc.
        rewrite next_offset_stride. reflexivity.
      * simpl. intros Hlt. apply Hstop. lia.
    + exists [], rest. simpl. rewrite app_nil_r.
      repeat split; [constructor | lia | auto].
Qed.

Lemma index_loop_encode (h : Header) (rs : list IndexRecord) :
  forall (pre tail : bytes) (off : Z) (acc : list PackFileEntry),
  Forall wf_record rs ->
  index_loop h (pre ++ encode_index (has_timestamps h) rs ++ tail)
    (length rs) (len pre) off acc
  = Returned (acc ++ entries_of h off rs).
Proof.
  induction rs as [|r rs IH]; intros pre tail off acc Hwf.
  - simpl. rewrite app_nil_r. reflexivity.
  - apply Forall_cons in Hwf as [Hr Hrs].
    cbn [length index_loop]. rewrite read_entry_decode_record.
    unfold encode_index. cbn [map concat]. rewrite <- app_assoc.
    rewrite decode_record_encode by assumption.
    cbn [mbind outcome_bind]. rewrite entry_of_normal.
    fold (encode_index (has_timestamps h) rs).
    replace (len pre + len (encode_record (has_timestamps h) r
                              ++ encode_index (has_timestamps h) rs ++ tail)
             - len (encode_index (has_timestamps h) rs ++ tail))
      with (len (pre ++ encode_record (has_timestamps h) r))
      by (rewrite !len_app; lia).
    rewrite (app_assoc pre).
    rewrite IH by assumption.
    rewrite entries_of_cons, <- app_assoc, next_offset_stride. reflexivity.
Qed.

(** ** Offsets of the descriptors of a list of records *)

Lemma round_up_8_spec (size : Z) :
  round_up_8 size mod 8 = 0 /\ size <= round_up_8 size < size + 8.
Proof.
  unfold round_up_8. split.
  - apply Z.mod_mul. lia.
  - Z.div_mod_to_equations. lia.
Qed.

Lemma stride_nonneg (padded : bool) (size : Z) :
  0 <= size -> 0 <= stride padded size.
Proof.
  intros Hs. unfold stride. destruct padded; [|exact Hs].
  pose proof (round_up_8_spec size). lia.
Qed.

Lemma data_span_app (padded : bool) (a b : list PackFileEntry) :
  data_span padded (a ++ b) = data_span padded a + data_span padded b.
Proof.
  induction a as [|e a IH]; simpl; [reflexivity|]. rewrite IH. lia.
Qed.

Lemma data_span_nonneg (padded : bool) (es : list PackFileEntry) :
  Forall (fun e => 0 <= entry_size e) es -> 0 <= data_span padded es.
Proof.
  induction 1 as [|e es He _ IH]; simpl; [lia|].
  pose proof (stride_nonneg padded _ He). lia.
Qed.

Lemma entries_of_length (h : Header) (rs : list IndexRecord) (off : Z) :
  length (entries_of h off rs) = length rs.
Proof.
  revert off. induction rs as [|r rs IH]; intros off; simpl; [|rewrite IH];
    reflexivity.
Qed.

Lemma entries_of_paths (h : Header) (rs : list IndexRecord) (off : Z) :
  map entry_path (entries_of h off rs)
  = map (fun r => decode_path (rec_path r)) rs.
Proof.
  revert off. induction rs as [|r rs IH]; intros off; simpl; [|rewrite IH];
    reflexivity.
Qed.

Lemma entries_of_sizes (h : Header) (rs : list IndexRecord) (off : Z) :
  map entry_size (entries_of h off rs) = map rec_size rs.
Proof.
  revert off. induction rs as [|r rs IH]; intros off; simpl; [|rewrite IH];
    reflexivity.
Qed.

Lemma entries_of_timestamps (h : Header) (rs : list IndexRecord) (off : Z) :
  map entry_timestamp (entries_of h off rs)
  = map (fun r => if has_timestamps h then Some (rec_timestamp r) else None) rs.
Proof.
  revert off. induction rs as [|r rs IH]; intros off; simpl; [|rewrite IH];
    reflexivity.
Qed.

Lemma entries_of_sizes_nonneg (h : Header) (rs : list IndexRecord) (off : Z) :
  Forall wf_record rs ->
  Forall (fun e => 0 <= entry_size e) (entries_of h off rs).
Proof.
  intros Hwf. revert off.
  induction Hwf as [|r rs (_ & [Hr _] & _) _ IH]; intros off; simpl;
    constructor; [exact Hr | apply IH].
Qed.

(** Every descriptor sits at the start offset plus the strides of the
    descriptors before it. *)
Lemma entries_of_offset (h : Header) (rs : list IndexRecord) :
  forall (off : Z) (i : nat) (e : PackFileEntry),
  entries_of h off rs !! i = Some e ->
  entry_offset e
  = off + data_span (data_padded h) (take i (entries_of h off rs)).
Proof.
  induction rs as [|r rs IH]; intros off i e; simpl; [discriminate|].
  destruct i as [|i]; simpl.
  - intros [= <-]. simpl. lia.
  - intros Hi. rewrite (IH _ _ _ Hi). lia.
Qed.

Lemma take_S_lookup {A : Type} (l : list A) (i : nat) (x : A) :
  l !! i = Some x -> take (S i) l = take i l ++ [x].
Proof. intros Hx. apply take_S_r. exact Hx. Qed.

Lemma entries_of_next (h : Header) (rs : list IndexRecord) (off : Z)
    (i : nat) (e1 e2 : PackFileEntry) :
  entries_of h off rs !! i = Some e1 ->
  entries_of h off rs !! S i = Some e2 ->
  entry_offset e2
  = entry_offset e1 + stride (data_padded h) (entry_size e1).
Proof.
  intros H1 H2.
  rewrite (entries_of_offset _ _ _ _ _ H2), (entries_of_offset _ _ _ _ _ H1).
  rewrite (take_S_lookup _ _ _ H1), data_span_app. simpl. lia.
Qed.

Lemma entries_of_monotone (h : Header) (rs : list IndexRecord) (off : Z)
    (i j : nat) (e1 e2 : PackFileEntry) :
  Forall wf_record rs -> (i <= j)%nat ->
  entries_of h off rs !! i = Some e1 ->
  entries_of h off rs !! j = Some e2 ->
  entry_offset e1 <= entry_offset e2.
Proof.
  intros Hwf Hij H1 H2.
  rewrite (entries_of_offset _ _ _ _ _ H2), (entries_of_offset _ _ _ _ _ H1).
  set (es := entries_of h off rs) in *.
  replace (take j es) with (take i es ++ drop i (take j es)).
  2:{ replace (take i es) with (take i (take j es))
        by (rewrite take_take; f_equal; lia).
      apply take_drop. }
  rewrite data_span_app.
  assert (0 <= data_span (data_padded h) (drop i (take j es))); [|lia].
  apply data_span_nonneg, Forall_drop, Forall_take.
  apply entries_of_sizes_nonneg. exact Hwf.
Qed.


(** ** The header decoder *)

Lemma land_pow2 (m k : Z) :
  0 <= k -> Z.land m (2 ^ k) = if Z.testbit m k then 2 ^ k else 0.
Proof.
  intros Hk. apply Z.bits_inj'. intros i Hi.
  rewrite Z.land_spec, Z.pow2_bits_eqb by exact Hk.
  destruct (Z.eqb_spec k i) as [->|Hne].
  - destruct (Z.testbit m i) eqn:E.
    + rewrite Z.pow2_bits_true by exact Hi. reflexivity.
    + rewrite Z.bits_0. reflexivity.
  - rewrite andb_false_r.
    destruct (Z.testbit m k).
    + rewrite Z.pow2_bits_false by exact Hne. reflexivity.
    + rewrite Z.bits_0. reflexivity.
Qed.

Lemma truthy_flag (m k : Z) :
  0 <= k -> Z.land 0xFFFFFFF0 (2 ^ k) = 2 ^ k ->
  truthy (Z.land (Z.land m 0xFFFFFFF0) (2 ^ k)) = Z.testbit m k.
Proof.
  intros Hk Hmask. rewrite <- Z.land_assoc, Hmask, land_pow2 by exact Hk.
  unfold truthy. destruct (Z.testbit m k); [|reflexivity].
  assert (0 < 2 ^ k) by (apply Z.pow_pos_nonneg; lia).
  destruct (Z.eqb_spec (2 ^ k) 0); [lia | reflexivity].
Qed.

Lemma low_nibble (m : Z) : Z.land m 0x0F = m mod 16.
Proof. apply (Z.land_ones m 4). lia. Qed.

Lemma slice_take {A : Type} (l : list A) (n lo hi : Z) :
  0 <= lo -> hi <= n -> slice (take (Z.to_nat n) l) lo hi = slice l lo hi.
Proof.
  intros Hlo Hhi. unfold slice.
  rewrite skipn_firstn_comm, take_take. f_equal. lia.
Qed.

Lemma slice_length {A : Type} (l : list A) (lo hi : Z) :
  0 <= lo <= hi -> hi <= len l ->
  length (slice l lo hi) = Z.to_nat (hi - lo).
Proof.
  intros Hlo Hhi. unfold slice, len in *.
  rewrite length_take, length_drop. lia.
Qed.

Lemma unpack_field (file : bytes) (off : Z) :
  0 <= off -> off + 4 <= len file ->
  struct_unpack_I (slice file off (off + 4)) = Returned (field_at file off)
  /\ uint32 (field_at file off).
Proof.
  intros Hoff Hlen. apply unpack_length.
  rewrite slice_length by lia. lia.
Qed.

Lemma read_header_ok (self : PFH5Reader) :
  32 <= len (pack_file self) ->
  slice (pack_file self) 0 4 = PFH5_magic ->
  read_header self
  = Returned (set_header self (layout_header (pack_file self)),
              layout_header (pack_file self)).
Proof.
  intros Hlen Hmagic. unfold read_header.
  set (file := pack_file self) in *.
  assert (Hread : file_read file 0 32 = take (Z.to_nat 32) file)
    by reflexivity.
  rewrite Hread.
  assert (Hl32 : len (take (Z.to_nat 32) file) = 32).
  { unfold len in *. rewrite length_take. lia. }
  rewrite Hl32. simpl (32 <? 32). cbv iota.
  rewrite !slice_take by lia. rewrite Hmagic.
  unfold bytes_eqb. rewrite bool_decide_eq_true_2 by reflexivity.
  simpl negb. cbv iota.
  pose proof (proj1 (unpack_field file 4 ltac:(lia) ltac:(lia))) as E4.
  pose proof (proj1 (unpack_field file 8 ltac:(lia) ltac:(lia))) as E8.
  pose proof (proj1 (unpack_field file 12 ltac:(lia) ltac:(lia))) as E12.
  pose proof (proj1 (unpack_field file 16 ltac:(lia) ltac:(lia))) as E16.
  pose proof (proj1 (unpack_field file 20 ltac:(lia) ltac:(lia))) as E20.
  pose proof (proj1 (unpack_field file 24 ltac:(lia) ltac:(lia))) as E24.
  pose proof (proj1 (unpack_field file 28 ltac:(lia) ltac:(lia))) as E28.
  change (4 + 4) with 8 in E4. change (8 + 4) with 12 in E8.
  change (12 + 4) with 16 in E12. change (16 + 4) with 20 in E16.
  change (20 + 4) with 24 in E20. change (24 + 4) with 28 in E24.
  change (28 + 4) with 32 in E28.
  rewrite E4, E8, E12, E16, E20, E24, E28. cbn [mbind outcome_bind].
  unfold FLAG_EXTENDED_HEADER, FLAG_INDEX_ENCRYPTED,
    FLAG_TIMESTAMP_IN_INDEX, FLAG_DATA_PADDED.
  rewrite (truthy_flag _ 20 ltac:(lia) eq_refl).
  rewrite (truthy_flag _ 15 ltac:(lia) eq_refl).
  rewrite (truthy_flag _ 10 ltac:(lia) eq_refl).
  rewrite (truthy_flag _ 4 ltac:(lia) eq_refl).
  rewrite low_nibble. reflexivity.
Qed.

Lemma read_header_short (self : PFH5Reader) :
  len (pack_file self) < 32 ->
  read_header self = Raised (ValueError "Invalid pack file: header too short").
Proof.
  intros Hlen. unfold read_header.
  assert (Hl : len (file_read (pack_file self) 0 32) < 32).
  { change (file_read (pack_file self) 0 32)
      with (take (Z.to_nat 32) (pack_file self)).
    unfold len in *. rewrite length_take. lia. }
  destruct (Z.ltb_spec (len (file_read (pack_file self) 0 32)) 32);
    [reflexivity | lia].
Qed.

Lemma read_header_bad_magic (self : PFH5Reader) :
  32 <= len (pack_file self) ->
  slice (pack_file self) 0 4 <> PFH5_magic ->
  read_header self = Raised (ValueError "Invalid pack file: expected PFH5").
Proof.
  intros Hlen Hmagic. unfold read_header.
  set (file := pack_file self) in *.
  assert (Hread : file_read file 0 32 = take (Z.to_nat 32) file)
    by reflexivity.
  rewrite Hread.
  assert (Hl32 : len (take (Z.to_nat 32) file) = 32).
  { unfold len in *. rewrite length_take. lia. }
  rewrite Hl32. simpl (32 <? 32). cbv iota.
  rewrite !slice_take by lia.
  unfold bytes_eqb. rewrite bool_decide_eq_false_2 by exact Hmagic.
  reflexivity.
Qed.

Lemma read_header_inv (self self1 : PFH5Reader) (h : Header) :
  read_header self = Returned (self1, h) ->
  32 <= len (pack_file self)
  /\ slice (pack_file self) 0 4 = PFH5_magic
  /\ h = layout_header (pack_file self)
  /\ self1 = set_header self h.
Proof.
  intros E.
  destruct (Z.lt_ge_cases (len (pack_file self)) 32) as [Hs|Hl].
  { rewrite read_header_short in E by exact Hs. discriminate. }
  destruct (decide (slice (pack_file self) 0 4 = PFH5_magic)) as [Hm|Hm].
  2:{ rewrite read_header_bad_magic in E by assumption. discriminate. }
  rewrite read_header_ok in E by assumption.
  injection E as <- <-. auto.
Qed.

Lemma layout_header_range (file : bytes) :
  32 <= len file ->
  uint32 (type_bitmask (layout_header file))
  /\ uint32 (pf_index_count (layout_header file))
  /\ uint32 (pf_index_size (layout_header file))
  /\ uint32 (file_index_count (layout_header file))
  /\ uint32 (file_index_size (layout_header file))
  /\ uint32 (timestamp (layout_header file))
  /\ uint32 (signature_pos (layout_header file)).
Proof.
  intros Hlen. simpl.
  repeat split; apply unpack_field; lia.
Qed.

(** ** [read_file_index] on the reader object *)

Lemma parse_file_entries_sound (h : Header) (data : bytes) :
  exists (rs : list IndexRecord) (rest : bytes),
    Forall wf_record rs
    /\ data = encode_index (has_timestamps h) rs ++ rest
    /\ (length rs <= Z.to_nat (file_index_count h))%nat
    /\ parse_file_entries h data = Returned (entries_of h 0 rs)
    /\ ((length rs < Z.to_nat (file_index_count h))%nat ->
        decode_record (has_timestamps h) rest = None).
Proof.
  destruct (index_loop_sound h (Z.to_nat (file_index_count h)) [] data 0 [])
    as (rs & rest & H1 & H2 & H3 & H4 & H5).
  exists rs, rest. repeat split; assumption.
Qed.

Lemma parse_file_entries_encode (h : Header) (rs : list IndexRecord)
    (tail : bytes) :
  Forall wf_record rs ->
  Z.of_nat (length rs) = file_index_count h ->
  parse_file_entries h (encode_index (has_timestamps h) rs ++ tail)
  = Returned (entries_of h 0 rs).
Proof.
  intros Hwf Hn. unfold parse_file_entries.
  rewrite <- Hn, Nat2Z.id.
  exact (index_loop_encode h rs [] tail 0 [] Hwf).
Qed.

Lemma read_file_index_encrypted (self : PFH5Reader) (h : Header) :
  header self = Some h -> index_encrypted h = true ->
  read_file_index self = Returned (warned self h, []).
Proof.
  intros Hh He. unfold read_file_index. rewrite Hh.
  cbn [mbind outcome_bind]. rewrite Hh, He. reflexivity.
Qed.

Lemma read_file_index_clear (self : PFH5Reader) (h : Header) :
  header self = Some h -> index_encrypted h = false ->
  0 <= index_start h ->
  read_file_index self
  = (es ← parse_file_entries h (index_bytes self h);
     Returned (indexed self h es, es)).
Proof.
  intros Hh He Hs. unfold read_file_index. rewrite Hh.
  cbn [mbind outcome_bind]. rewrite Hh, He.
  change (if has_extended_header h then 32 + 20 else 32) with (header_size h).
  fold (index_start h). unfold file_seek.
  destruct (Z.ltb_spec (index_start h) 0); [lia|].
  cbn [mbind outcome_bind]. fold (index_bytes self h).
  destruct (parse_file_entries h (index_bytes self h)); [|reflexivity].
  reflexivity.
Qed.

Lemma read_file_index_seek_error (self : PFH5Reader) (h : Header) :
  header self = Some h -> index_encrypted h = false ->
  index_start h < 0 ->
  read_file_index self = Raised OSError.
Proof.
  intros Hh He Hs. unfold read_file_index. rewrite Hh.
  cbn [mbind outcome_bind]. rewrite Hh, He.
  change (if has_extended_header h then 32 + 20 else 32) with (header_size h).
  fold (index_start h). unfold file_seek.
  destruct (Z.ltb_spec (index_start h) 0); [reflexivity | lia].
Qed.

Lemma read_file_index_fresh (self self1 : PFH5Reader) (h : Header) :
  header self = None -> read_header self = Returned (self1, h) ->
  read_file_index self = read_file_index self1.
Proof.
  intros Hn Hr. destruct (read_header_inv _ _ _ Hr) as (_ & _ & _ & ->).
  unfold read_file_index at 1. rewrite Hn, Hr.
  cbn [mbind outcome_bind fst]. unfold read_file_index.
  cbn [set_header header]. cbn [mbind outcome_bind]. reflexivity.
Qed.

(** Whatever [read_file_index] returns, it returns in one of two ways. *)
Lemma read_file_index_inv (self self' : PFH5Reader) (es : list PackFileEntry) :
  read_file_index self = Returned (self', es) ->
  exists (self1 : PFH5Reader) (h : Header),
    (header self = Some h /\ self1 = self
     \/ header self = None /\ read_header self = Returned (self1, h))
    /\ header self1 = Some h
    /\ pack_file self1 = pack_file self
    /\ (index_encrypted h = true /\ es = [] /\ self' = warned self1 h
        \/ index_encrypted h = false /\ 0 <= index_start h
           /\ parse_file_entries h (index_bytes self1 h) = Returned es
           /\ self' = indexed self1 h es).
Proof.
  intros E.
  assert (Hcase : forall s1 h, header s1 = Some h ->
            read_file_index s1 = Returned (self', es) ->
            index_encrypted h = true /\ es = [] /\ self' = warned s1 h
            \/ index_encrypted h = false /\ 0 <= index_start h
               /\ parse_file_entries h (index_bytes s1 h) = Returned es
               /\ self' = indexed s1 h es).
  { intros s1 h Hh E1. destruct (index_encrypted h) eqn:He.
    - rewrite (read_file_index_encrypted _ _ Hh He) in E1.
      injection E1 as <- <-. left. auto.
    - destruct (Z.lt_ge_cases (index_start h) 0) as [Hneg|Hpos].
      { rewrite (read_file_index_seek_error _ _ Hh He Hneg) in E1.
        discriminate. }
      rewrite (read_file_index_clear _ _ Hh He Hpos) in E1.
      destruct (parse_file_entries h (index_bytes s1 h)) as [es1|];
        [|discriminate].
      cbn [mbind outcome_bind] in E1. injection E1 as <- <-.
      right. auto. }
  destruct (header self) as [h|] eqn:Hh.
  - exists self, h. repeat split; auto.
  - destruct (read_header self) as [[self1 h]|e] eqn:Hr.
    + rewrite (read_file_index_fresh _ _ _ Hh Hr) in E.
      destruct (read_header_inv _ _ _ Hr) as (_ & _ & _ & Hs1).
      assert (Hh1 : header self1 = Some h) by (rewrite Hs1; reflexivity).
      exists self1, h. split; [right; auto|].
      split; [exact Hh1|]. split; [rewrite Hs1; reflexivity|].
      apply Hcase; assumption.
    + unfold read_file_index in E. rewrite Hh, Hr in E. discriminate.
Qed.

(** ** Cumulative data offsets *)

(** C2: in every list of descriptors returned by [read_file_index] the
    first data offset is 0, and each next data offset is the previous one
    plus the previous size, that size being rounded up to the next
    multiple of 8 (and left alone when it already is one) exactly when the
    data-padded flag is set. *)
Theorem offsets_accumulate (self self' : PFH5Reader)
    (es : list PackFileEntry) (h : Header) :
  read_file_index self = Returned (self', es) ->
  header self' = Some h ->
  (forall e, es !! 0%nat = Some e -> entry_offset e = 0)
  /\ (forall i e1 e2, es !! i = Some e1 -> es !! S i = Some e2 ->
        if data_padded h then
          exists r, entry_offset e2 = entry_offset e1 + r
                    /\ r mod 8 = 0
                    /\ entry_size e1 <= r < entry_size e1 + 8
                    /\ (entry_size e1 mod 8 = 0 -> r = entry_size e1)
        else entry_offset e2 = entry_offset e1 + entry_size e1).
Proof.
  intros E Hh.
  destruct (read_file_index_inv _ _ _ E)
    as (self1 & h1 & _ & _ & _ & [(_ & -> & _)|(_ & _ & Hp & ->)]).
  { split; intros; discriminate. }
  injection Hh as ->.
  destruct (parse_file_entries_sound h (index_bytes self1 h))
    as (rs & rest & _ & _ & _ & Hs & _).
  rewrite Hs in Hp. injection Hp as <-.
  split.
  - intros e He. rewrite (entries_of_offset _ _ _ _ _ He). simpl. lia.
  - intros i e1 e2 H1 H2.
    pose proof (entries_of_next _ _ _ _ _ _ H1 H2) as Hn.
    unfold stride in Hn. destruct (data_padded h); [|exact Hn].
    exists (round_up_8 (entry_size e1)).
    destruct (round_up_8_spec (entry_size e1)) as [Hm Hr].
    repeat split; try assumption; try lia.
    intros Hmod. apply Z.mod_divide in Hm, Hmod; try lia.
    destruct Hm as [a Ha], Hmod as [b Hb]. lia.
Qed.

Lemma offsets_accumulate_witness :
  read_file_index (new_reader sample_padded)
  = Returned (indexed (opened sample_padded) (layout_header sample_padded)
                padded_entries, padded_entries)
  /\ (forall e, padded_entries !! 0%nat = Some e -> entry_offset e = 0)
  /\ (forall i e1 e2,
        padded_entries !! i = Some e1 -> padded_entries !! S i = Some e2 ->
        if data_padded (layout_header sample_padded) then
          exists r, entry_offset e2 = entry_offset e1 + r
                    /\ r mod 8 = 0
                    /\ entry_size e1 <= r < entry_size e1 + 8
                    /\ (entry_size e1 mod 8 = 0 -> r = entry_size e1)
        else entry_offset e2 = entry_offset e1 + entry_size e1).
Proof.
  split; [vm_compute; reflexivity|].
  apply (offsets_accumulate (new_reader sample_padded)
           (indexed (opened sample_padded) (layout_header sample_padded)
              padded_entries)
           padded_entries (layout_header sample_padded)).
  - vm_compute. reflexivity.
  - reflexivity.
Defined.

(** ** Malformed and truncated indexes *)

(** C10: for every header with the index-encrypted flag clear (its
    secondary-index size being an unsigned field) and whatever bytes the
    index block holds, [read_file_index] returns; the list it returns is
    the list of descriptors of complete records that the index bytes start
    with, one after the other, and it has at most [file_index_count]
    entries.  The loop itself does so on any byte string. *)
Theorem read_file_index_total (self : PFH5Reader) (h : Header) :
  header self = Some h ->
  index_encrypted h = false ->
  0 <= pf_index_size h ->
  (exists (rs : list IndexRecord) (rest : bytes),
     Forall wf_record rs
     /\ index_bytes self h = encode_index (has_timestamps h) rs ++ rest
     /\ read_file_index self
        = Returned (indexed self h (entries_of h 0 rs), entries_of h 0 rs)
     /\ length (entries_of h 0 rs) = length rs
     /\ Z.of_nat (length rs) <= Z.max 0 (file_index_count h))
  /\ (forall data : bytes,
        exists (rs : list IndexRecord) (rest : bytes),
          Forall wf_record rs
          /\ data = encode_index (has_timestamps h) rs ++ rest
          /\ parse_file_entries h data = Returned (entries_of h 0 rs)
          /\ Z.of_nat (length rs) <= Z.max 0 (file_index_count h)).
Proof.
  intros Hh He Hpf.
  assert (Hs : 0 <= index_start h).
  { unfold index_start, header_size. destruct (has_extended_header h); lia. }
  split.
  - destruct (parse_file_entries_sound h (index_bytes self h))
      as (rs & rest & Hwf & Hsplit & Hlen & Hp & _).
    exists rs, rest. rewrite (read_file_index_clear _ _ Hh He Hs), Hp.
    repeat split; try assumption.
    + apply entries_of_length.
    + lia.
  - intros data.
    destruct (parse_file_entries_sound h data)
      as (rs & rest & Hwf & Hsplit & Hlen & Hp & _).
    exists rs, rest. repeat split; try assumption. lia.
Qed.

Lemma read_file_index_total_witness :
  exists (rs : list IndexRecord) (rest : bytes),
    Forall wf_record rs
    /\ index_bytes (opened sample_truncated) (layout_header sample_truncated)
       = encode_index (has_timestamps (layout_header sample_truncated)) rs
           ++ rest
    /\ read_file_index (opened sample_truncated)
       = Returned (indexed (opened sample_truncated)
                     (layout_header sample_truncated)
                     (entries_of (layout_header sample_truncated) 0 rs),
                   entries_of (layout_header sample_truncated) 0 rs)
    /\ length (entries_of (layout_header sample_truncated) 0 rs) = length rs
    /\ Z.of_nat (length rs)
       <= Z.max 0 (file_index_count (layout_header sample_truncated)).
Proof.
  apply (read_file_index_total (opened sample_truncated)
           (layout_header sample_truncated)).
  - reflexivity.
  - vm_compute. reflexivity.
  - vm_compute. discriminate.
Defined.

Lemma holds_records_parse (h : Header) (data : bytes) :
  holds_records (has_timestamps h) (Z.to_nat (file_index_count h)) data ->
  0 <= file_index_count h ->
  exists es, parse_file_entries h data = Returned es
             /\ length es = Z.to_nat (file_index_count h).
Proof.
  intros (rs & tail & Hwf & Hlen & ->) Hc.
  exists (entries_of h 0 rs). split.
  - apply parse_file_entries_encode; [exact Hwf | lia].
  - rewrite entries_of_length. exact Hlen.
Qed.

(** C1, as the code has it: when the index bytes run out before
    [file_index_count] complete records, [read_file_index] does not fail.
    It stops at the first incomplete record and returns the descriptors of
    the complete records before it, fewer than [file_index_count]. *)
Theorem truncated_index_stops (self : PFH5Reader) (h : Header) :
  header self = Some h ->
  index_encrypted h = false ->
  0 <= pf_index_size h ->
  ~ holds_records (has_timestamps h) (Z.to_nat (file_index_count h))
      (index_bytes self h) ->
  exists (rs : list IndexRecord) (rest : bytes),
    Forall wf_record rs
    /\ index_bytes self h = encode_index (has_timestamps h) rs ++ rest
    /\ (forall r tail, wf_record r ->
          rest <> encode_record (has_timestamps h) r ++ tail)
    /\ Z.of_nat (length rs) < file_index_count h
    /\ read_file_index self
       = Returned (indexed self h (entries_of h 0 rs), entries_of h 0 rs).
Proof.
  intros Hh He Hpf Hex.
  assert (Hs : 0 <= index_start h).
  { unfold index_start, header_size. destruct (has_extended_header h); lia. }
  destruct (parse_file_entries_sound h (index_bytes self h))
    as (rs & rest & Hwf & Hsplit & Hlen & Hp & Hstop).
  assert (Hlt : (length rs < Z.to_nat (file_index_count h))%nat).
  { destruct (decide (length rs = Z.to_nat (file_index_count h))) as [Heq|];
      [|lia].
    exfalso. apply Hex. exists rs, rest. auto. }
  exists rs, rest. rewrite (read_file_index_clear _ _ Hh He Hs), Hp.
  repeat split; try assumption.
  - apply decode_record_None. auto.
  - lia.
Qed.

Lemma sample_truncated_exhausted :
  ~ holds_records (has_timestamps (layout_header sample_truncated))
      (Z.to_nat (file_index_count (layout_header sample_truncated)))
      (index_bytes (opened sample_truncated) (layout_header sample_truncated)).
Proof.
  intros Hr. apply holds_records_parse in Hr as (es & Hp & Hl);
    [|vm_compute; discriminate].
  vm_compute in Hp. injection Hp as <-. vm_compute in Hl. discriminate.
Defined.

Lemma truncated_index_stops_witness :
  exists (rs : list IndexRecord) (rest : bytes),
    Forall wf_record rs
    /\ index_bytes (opened sample_truncated) (layout_header sample_truncated)
       = encode_index (has_timestamps (layout_header sample_truncated)) rs
           ++ rest
    /\ (forall r tail, wf_record r ->
          rest <> encode_record
                    (has_timestamps (layout_header sample_truncated)) r
                    ++ tail)
    /\ Z.of_nat (length rs) < file_index_count (layout_header sample_truncated)
    /\ read_file_index (opened sample_truncated)
       = Returned (indexed (opened sample_truncated)
                     (layout_header sample_truncated)
                     (entries_of (layout_header sample_truncated) 0 rs),
                   entries_of (layout_header sample_truncated) 0 rs).
Proof.
  apply (truncated_index_stops (opened sample_truncated)
           (layout_header sample_truncated)).
  - reflexivity.
  - vm_compute. reflexivity.
  - vm_compute. discriminate.
  - exact sample_truncated_exhausted.
Defined.

(** C1 as stated fails on the archive whose index lacks the size field of
    its second member: the index is exhausted before two complete records,
    and yet [read_file_index] returns, with the one-element list holding
    the first member. *)
Lemma truncated_index_returns_partial_list :
  index_encrypted (layout_header sample_truncated) = false
  /\ ~ holds_records (has_timestamps (layout_header sample_truncated))
         (Z.to_nat (file_index_count (layout_header sample_truncated)))
         (index_bytes (opened sample_truncated)
            (layout_header sample_truncated))
  /\ read_file_index (new_reader sample_truncated)
     = Returned (indexed (opened sample_truncated)
                   (layout_header sample_truncated) [entry_a],
                 [entry_a])
  /\ (forall e : exn,
        read_file_index (new_reader sample_truncated)
        <> Raised e).
Proof.
  split; [vm_compute; reflexivity|].
  split; [exact sample_truncated_exhausted|].
  split; [vm_compute; reflexivity|].
  intros e. vm_compute. discriminate.
Qed.

(** ** Valid archives *)

(** The two-member archive: descriptors at offsets 0 and 3, and the second
    member extracted byte for byte. *)
Example two_member_archive :
  read_file_index (new_reader sample_plain)
  = Returned (plain_reader, [entry_a; entry_b])
  /\ extract_file plain_reader entry_a
     = Returned (plain_reader, bytes_of_string "foo")
  /\ extract_file plain_reader entry_b
     = Returned (plain_reader, bytes_of_string "hi").
Proof.
  split; [vm_compute; reflexivity|].
  split; vm_compute; reflexivity.
Qed.

Lemma read_header_new (file : bytes) (self1 : PFH5Reader) (h : Header) :
  read_header (new_reader file) = Returned (self1, h) ->
  32 <= len file /\ slice file 0 4 = PFH5_magic
  /\ h = layout_header file /\ self1 = opened file.
Proof.
  intros E. destruct (read_header_inv _ _ _ E) as (Hl & Hm & -> & ->).
  auto.
Qed.


(** The reader compares neither offsets nor sizes with the length of
    the file: on a file cut off right after an index that declares one
    member of 1000 bytes it returns that descriptor, which reaches past
    the 38 bytes of the file. *)
Example index_read_ignores_file_length :
  read_header (new_reader sample_dataless)
  = Returned (opened sample_dataless, layout_header sample_dataless)
  /\ index_encrypted (layout_header sample_dataless) = false
  /\ Forall wf_record [rec_big]
  /\ Z.of_nat (length [rec_big])
     = file_index_count (layout_header sample_dataless)
  /\ index_bytes (opened sample_dataless) (layout_header sample_dataless)
     = encode_index false [rec_big]
  /\ read_file_index (opened sample_dataless)
     = Returned (indexed (opened sample_dataless)
                   (layout_header sample_dataless)
                   [mkEntry (str_of_string "a") 1000 0 None],
                 [mkEntry (str_of_string "a") 1000 0 None])
  /\ len sample_dataless = 38
  /\ (forall e, last [mkEntry (str_of_string "a") 1000 0 None] = Some e ->
        ~ (entry_offset e
           + stride (data_padded (layout_header sample_dataless))
               (entry_size e)
           <= len sample_dataless)).
Proof.
  split; [vm_compute; reflexivity|].
  split; [vm_compute; reflexivity|].
  split; [by_evaluation|].
  split; [vm_compute; reflexivity|].
  split; [vm_compute; reflexivity|].
  split; [vm_compute; reflexivity|].
  split; [vm_compute; reflexivity|].
  intros e [= <-]. vm_compute. intros Hle. apply Hle. reflexivity.
Qed.

(** ** The header *)

Lemma field_at_take (file : bytes) (off : Z) :
  0 <= off -> off + 4 <= 32 ->
  field_at (take 32 file) off = field_at file off.
Proof.
  intros H0 H1. unfold field_at.
  change 32%nat with (Z.to_nat 32). rewrite slice_take by lia. reflexivity.
Qed.

Lemma layout_header_take (file : bytes) :
  layout_header (take 32 file) = layout_header file.
Proof.
  unfold layout_header. rewrite !field_at_take by lia. reflexivity.
Qed.

Lemma header_result_take (self : PFH5Reader) :
  header_result self
  = header_result (mkReader (take 32 (pack_file self)) (header self)
                     (entries self) (file_data_offset self) (stdout self)).
Proof.
  unfold header_result.
  set (self' := mkReader _ _ _ _ _).
  assert (Hm : slice (pack_file self') 0 4 = slice (pack_file self) 0 4).
  { cbn [self' pack_file]. change 32%nat with (Z.to_nat 32).
    apply slice_take; lia. }
  assert (Hl : len (pack_file self') = Z.min 32 (len (pack_file self))).
  { cbn [self' pack_file]. unfold len. rewrite length_take. lia. }
  destruct (Z.lt_ge_cases (len (pack_file self)) 32) as [Hs|Hge].
  - rewrite !read_header_short by lia. reflexivity.
  - destruct (decide (slice (pack_file self) 0 4 = PFH5_magic)) as [Hy|Hn].
    + rewrite !read_header_ok by (try rewrite Hm; try assumption; lia).
      cbn [mbind outcome_bind snd]. cbn [self' pack_file].
      rewrite layout_header_take. reflexivity.
    + rewrite !read_header_bad_magic
        by (try rewrite Hm; try assumption; lia).
      reflexivity.
Qed.

Lemma pack_type_kinds (file : bytes) :
  pack_type (layout_header file) <= 4 <->
  pack_type (layout_header file)
  ∈ [PACK_TYPE_BOOT; PACK_TYPE_RELEASE; PACK_TYPE_PATCH; PACK_TYPE_MOD;
     PACK_TYPE_MOVIE].
Proof.
  cbn [layout_header pack_type].
  pose proof (Z.mod_pos_bound (field_at file 4) 16 ltac:(lia)) as Hr.
  unfold PACK_TYPE_BOOT, PACK_TYPE_RELEASE, PACK_TYPE_PATCH, PACK_TYPE_MOD,
    PACK_TYPE_MOVIE.
  rewrite !elem_of_cons, elem_of_nil. lia.
Qed.

(** C6: [read_header] looks at the first 32 bytes of the file only; it
    raises [ValueError] when the file has fewer than 32 bytes or does not
    start with the magic tag; otherwise it returns the header of the
    layout: seven unsigned little-endian 32-bit fields after the tag, the
    archive kind being the low nibble of the bitmask (the five named
    kinds being its values 0 to 4) and the four flags being its bits 20,
    15, 10 and 4. *)
Theorem read_header_layout (self : PFH5Reader) :
  let file := pack_file self in
  let h := layout_header file in
  (len file < 32 \/ slice file 0 4 <> PFH5_magic ->
   exists msg, read_header self = Raised (ValueError msg))
  /\ (32 <= len file -> slice file 0 4 = PFH5_magic ->
      read_header self = Returned (set_header self h, h)
      /\ type_bitmask h = le_uint (slice file 4 8)
      /\ pf_index_count h = le_uint (slice file 8 12)
      /\ pf_index_size h = le_uint (slice file 12 16)
      /\ file_index_count h = le_uint (slice file 16 20)
      /\ file_index_size h = le_uint (slice file 20 24)
      /\ timestamp h = le_uint (slice file 24 28)
      /\ signature_pos h = le_uint (slice file 28 32)
      /\ (uint32 (type_bitmask h) /\ uint32 (pf_index_count h)
          /\ uint32 (pf_index_size h) /\ uint32 (file_index_count h)
          /\ uint32 (file_index_size h) /\ uint32 (timestamp h)
          /\ uint32 (signature_pos h))
      /\ pack_type h = type_bitmask h mod 16
      /\ (pack_type h <= 4 <->
          pack_type h ∈ [PACK_TYPE_BOOT; PACK_TYPE_RELEASE; PACK_TYPE_PATCH;
                         PACK_TYPE_MOD; PACK_TYPE_MOVIE])
      /\ has_extended_header h = Z.testbit (type_bitmask h) 20
      /\ index_encrypted h = Z.testbit (type_bitmask h) 15
      /\ has_timestamps h = Z.testbit (type_bitmask h) 10
      /\ data_padded h = Z.testbit (type_bitmask h) 4)
  /\ (forall self', take 32 (pack_file self') = take 32 file ->
        header_result self' = header_result self).
Proof.
  intros file h. split; [|split].
  - intros [Hs|Hm].
    + eexists. apply read_header_short. exact Hs.
    + destruct (Z.lt_ge_cases (len file) 32) as [Hs|Hge].
      * eexists. apply read_header_short. exact Hs.
      * eexists. apply read_header_bad_magic; assumption.
  - intros Hlen Hm.
    split; [apply read_header_ok; assumption|].
    do 7 (split; [reflexivity|]).
    split; [apply layout_header_range; exact Hlen|].
    split; [reflexivity|].
    split; [apply pack_type_kinds|].
    do 3 (split; [reflexivity|]). reflexivity.
  - intros self' Ht.
    rewrite (header_result_take self'), (header_result_take self).
    fold file. rewrite Ht.
    unfold header_result.
    set (a := mkReader _ (header self') _ _ _).
    set (b := mkReader _ (header self) _ _ _).
    assert (Hp : pack_file a = pack_file b) by reflexivity.
    destruct (Z.lt_ge_cases (len (pack_file a)) 32) as [Hs|Hge].
    + rewrite !read_header_short by (try rewrite <- Hp; lia). reflexivity.
    + destruct (decide (slice (pack_file a) 0 4 = PFH5_magic)) as [Hy|Hn].
      * rewrite !read_header_ok by (try rewrite <- Hp; assumption).
        cbn [mbind outcome_bind snd]. rewrite Hp. reflexivity.
      * rewrite !read_header_bad_magic by (try rewrite <- Hp; assumption).
        reflexivity.
Qed.

Lemma read_header_layout_witness :
  read_header (new_reader sample_padded)
  = Returned (opened sample_padded, layout_header sample_padded)
  /\ type_bitmask (layout_header sample_padded) = 0x100413
  /\ pack_type (layout_header sample_padded) = PACK_TYPE_MOD
  /\ file_index_count (layout_header sample_padded) = 3
  /\ has_extended_header (layout_header sample_padded) = true
  /\ index_encrypted (layout_header sample_padded) = false
  /\ (exists msg,
        read_header (new_reader (take 31 sample_padded))
        = Raised (ValueError msg)).
Proof.
  destruct (read_header_layout (new_reader sample_padded))
    as (_ & Hok & _).
  destruct Hok as (H1 & _); [vm_compute; discriminate | reflexivity |].
  split; [exact H1|].
  do 5 (split; [vm_compute; reflexivity|]).
  destruct (read_header_layout (new_reader (take 31 sample_padded)))
    as (Hbad & _).
  apply Hbad. left. vm_compute. reflexivity.
Defined.

(** ** The encrypted index *)

(** C5: when the header has the index-encrypted flag, [read_file_index]
    does not look at the index: on a fresh reader, and on one whose header
    has been read, it returns the empty list without raising, prints its
    warning, and leaves the reader with its header and no entries;
    whatever follows the 32 header bytes in the file changes nothing.  The
    reader stays usable: [get_file_info] on it returns, reporting no
    files. *)
Theorem encrypted_index_degrades (file : bytes) (self1 : PFH5Reader)
    (h : Header) :
  read_header (new_reader file) = Returned (self1, h) ->
  index_encrypted h = true ->
  read_file_index (new_reader file)
  = Returned (mkReader file (Some h) [] 0 [encrypted_warning], [])
  /\ read_file_index self1
     = Returned (mkReader file (Some h) [] 0 [encrypted_warning], [])
  /\ (forall file', take 32 file' = take 32 file ->
        read_file_index (new_reader file')
        = Returned (mkReader file' (Some h) [] 0 [encrypted_warning], []))
  /\ (forall lib : StrLib,
        @get_file_info lib (mkReader file (Some h) [] 0 [encrypted_warning])
        = Returned (mkReader file (Some h) [] 0
                      [encrypted_warning; encrypted_warning],
                    mkFileInfo 0 0 ∅ (Some h))).
Proof.
  intros Hr He.
  destruct (read_header_new _ _ _ Hr) as (Hlen & Hm & Hh & Hs1).
  assert (Hself1 : read_file_index self1
            = Returned (mkReader file (Some h) [] 0 [encrypted_warning], [])).
  { rewrite (read_file_index_encrypted self1 h); [|rewrite Hs1, Hh|exact He];
      [|reflexivity].
    rewrite Hs1. reflexivity. }
  split; [|split; [exact Hself1|split]].
  - rewrite (read_file_index_fresh (new_reader file) _ _ eq_refl Hr).
    exact Hself1.
  - intros file' Ht.
    assert (Hlen' : 32 <= len file').
    { apply (f_equal length) in Ht. rewrite !length_take in Ht.
      unfold len in *. lia. }
    assert (Hm' : slice file' 0 4 = PFH5_magic).
    { rewrite <- Hm. change 32%nat with (Z.to_nat 32) in Ht.
      rewrite <- (slice_take file' 32 0 4), <- (slice_take file 32 0 4) by lia.
      rewrite Ht. reflexivity. }
    assert (Hh' : layout_header file' = h).
    { rewrite Hh, <- (layout_header_take file'), <- (layout_header_take file).
      rewrite Ht. reflexivity. }
    pose proof (read_header_ok (new_reader file') Hlen' Hm') as Hr'.
    cbn [new_reader pack_file] in Hr'.
    rewrite (read_file_index_fresh (new_reader file') _ _ eq_refl Hr').
    rewrite (read_file_index_encrypted _ h);
      [|cbn; rewrite Hh'; reflexivity|exact He].
    reflexivity.
  - intros lib. unfold get_file_info, ensure_index. cbn [entries].
    rewrite (read_file_index_encrypted
               (mkReader file (Some h) [] 0 [encrypted_warning]) h eq_refl He).
    reflexivity.
Qed.

Lemma encrypted_index_degrades_witness :
  read_file_index (new_reader sample_encrypted)
  = Returned (mkReader sample_encrypted
                (Some (layout_header sample_encrypted)) [] 0
                [encrypted_warning], [])
  /\ index_encrypted (layout_header sample_encrypted) = true.
Proof.
  destruct (encrypted_index_degrades sample_encrypted
              (opened sample_encrypted) (layout_header sample_encrypted))
    as (H1 & _).
  - vm_compute. reflexivity.
  - vm_compute. reflexivity.
  - split; [exact H1 | vm_compute; reflexivity].
Defined.

(** ** Where the data region starts *)

(** C7, as the code has it: after [read_file_index] on an archive whose
    index is not encrypted, the data region starts at header size plus
    secondary-index size plus member-index size, the header size being 32,
    or 52 under the extended-header flag; and the member index was read
    after skipping header size plus secondary-index size bytes. *)
Theorem data_region_start (self self' : PFH5Reader)
    (es : list PackFileEntry) (h : Header) :
  read_file_index self = Returned (self', es) ->
  header self' = Some h ->
  index_encrypted h = false ->
  let skipped := (if has_extended_header h then 52 else 32) + pf_index_size h in
  file_data_offset self' = skipped + file_index_size h
  /\ 0 <= skipped
  /\ parse_file_entries h
       (file_read (pack_file self) skipped (file_index_size h))
     = Returned es
  /\ (0 <= file_index_size h ->
      file_read (pack_file self) skipped (file_index_size h)
      = take (Z.to_nat (file_index_size h))
          (drop (Z.to_nat skipped) (pack_file self))).
Proof.
  intros E Hh He skipped.
  destruct (read_file_index_inv _ _ _ E)
    as (self1 & h1 & _ & _ & Hpf & [(He1 & _ & ->)|(_ & Hs & Hp & ->)]).
  { injection Hh as ->. congruence. }
  injection Hh as ->.
  unfold index_bytes, index_start, header_size in *. rewrite Hpf in Hp.
  fold skipped in Hs, Hp.
  split; [reflexivity|]. split; [exact Hs|]. split; [exact Hp|].
  intros Hn. unfold file_read.
  destruct (Z.ltb_spec (file_index_size h) 0); [lia | reflexivity].
Qed.

Lemma data_region_start_witness :
  read_file_index (new_reader sample_padded)
  = Returned (indexed (opened sample_padded) (layout_header sample_padded)
                padded_entries, padded_entries)
  /\ has_extended_header (layout_header sample_padded) = true
  /\ file_data_offset
       (indexed (opened sample_padded) (layout_header sample_padded)
          padded_entries)
     = 52 + 5 + 38.
Proof.
  split; [vm_compute; reflexivity|].
  split; [vm_compute; reflexivity|].
  destruct (data_region_start (new_reader sample_padded)
              (indexed (opened sample_padded) (layout_header sample_padded)
                 padded_entries)
              padded_entries (layout_header sample_padded))
    as (H1 & _).
  - vm_compute. reflexivity.
  - reflexivity.
  - vm_compute. reflexivity.
  - rewrite H1. vm_compute. reflexivity.
Defined.

(** C7 as stated fails on an archive with the index-encrypted flag:
    [read_file_index] returns before it computes the start of the data
    region, which stays at 0 although header and indexes take 39 bytes. *)
Lemma encrypted_archive_data_offset_unset :
  exists self',
    read_file_index (new_reader sample_encrypted) = Returned (self', [])
    /\ file_data_offset self' = 0
    /\ header self' = Some (layout_header sample_encrypted)
    /\ header_size (layout_header sample_encrypted)
       + pf_index_size (layout_header sample_encrypted)
       + file_index_size (layout_header sample_encrypted) = 39.
Proof.
  eexists. split; [vm_compute; reflexivity|].
  split; [reflexivity|]. split; vm_compute; reflexivity.
Qed.

(** ** Extraction *)




(** ** Member paths *)

Lemma decode_path_cons_ascii (c : Byte.byte) (t : bytes) :
  byte_val c < 0x80 -> decode_path (c :: t) = byte_val c :: decode_path t.
Proof.
  intros Hc. unfold decode_path at 1. unfold bytes_decode_utf8.
  cbn [map utf8_decode_from]. unfold utf8_step.
  destruct (Z.ltb_spec (byte_val c) 0x80); [|lia].
  cbn [Nat.pred].
  pose proof (decode_ignore_returns t) as E. unfold bytes_decode_utf8 in E.
  rewrite E. reflexivity.
Qed.

Lemma decode_path_cons_invalid (c : Byte.byte) (t : bytes) :
  0x80 <= byte_val c < 0xC2 \/ 0xF5 <= byte_val c ->
  decode_path (c :: t) = decode_path t.
Proof.
  intros Hc. unfold decode_path at 1. unfold bytes_decode_utf8.
  cbn [map utf8_decode_from]. unfold utf8_step.
  pose proof (decode_ignore_returns t) as E. unfold bytes_decode_utf8 in E.
  destruct (Z.ltb_spec (byte_val c) 0x80); [lia|].
  destruct (Z.ltb_spec (byte_val c) 0xC2).
  { cbn [Nat.pred]. rewrite E. reflexivity. }
  destruct (Z.ltb_spec (byte_val c) 0xE0); [lia|].
  destruct (Z.ltb_spec (byte_val c) 0xF0); [lia|].
  destruct (Z.ltb_spec (byte_val c) 0xF5); [lia|].
  cbn [Nat.pred]. rewrite E. reflexivity.
Qed.

Lemma utf8_ignore_scan (s : list Z) (skip : nat) :
  utf8_decode_from Ignore skip s = Returned (omap id (utf8_scan skip s)).
Proof.
  revert skip. induction s as [|c t IH]; intros skip; [reflexivity|].
  cbn [utf8_decode_from utf8_scan]. destruct skip as [|k]; [|apply IH].
  destruct (utf8_step (c :: t)) as [ch n|n]; rewrite IH; reflexivity.
Qed.

Lemma utf8_replace_scan (s : list Z) (skip : nat) :
  utf8_decode_from Replace skip s
  = Returned (map (default 0xFFFD) (utf8_scan skip s)).
Proof.
  revert skip. induction s as [|c t IH]; intros skip; [reflexivity|].
  cbn [utf8_decode_from utf8_scan]. destruct skip as [|k]; [|apply IH].
  destruct (utf8_step (c :: t)) as [ch n|n]; rewrite IH; reflexivity.
Qed.

Lemma decode_path_scan (b : bytes) : decode_path b = omap id (scan_bytes b).
Proof.
  unfold decode_path, bytes_decode_utf8, scan_bytes.
  rewrite utf8_ignore_scan. reflexivity.
Qed.

(** C8, as the code has it: the path of every index record is the run of
    bytes before the record's zero byte, decoded as UTF-8 with the
    ill-formed sequences left out, where decoding with replacement would
    put U+FFFD; decoding never fails, so a record whose path bytes are not
    UTF-8 still yields a path.  An ASCII byte gives its own code point,
    and a byte that cannot start a sequence gives nothing. *)
Theorem paths_decoded_ignoring_errors (h : Header) (rs : list IndexRecord)
    (tail : bytes) :
  Forall wf_record rs ->
  Z.of_nat (length rs) = file_index_count h ->
  (exists es,
     parse_file_entries h (encode_index (has_timestamps h) rs ++ tail)
     = Returned es
     /\ map entry_path es = map (fun r => decode_path (rec_path r)) rs)
  /\ (forall b : bytes,
        bytes_decode_utf8 Ignore b = Returned (decode_path b)
        /\ decode_path b = omap id (scan_bytes b)
        /\ bytes_decode_utf8 Replace b
           = Returned (map (default 0xFFFD) (scan_bytes b)))
  /\ (forall c t, byte_val c < 0x80 ->
        decode_path (c :: t) = byte_val c :: decode_path t)
  /\ (forall c t, 0x80 <= byte_val c < 0xC2 \/ 0xF5 <= byte_val c ->
        decode_path (c :: t) = decode_path t).
Proof.
  intros Hwf Hn. split; [|split; [|split]].
  - exists (entries_of h 0 rs). split.
    + apply parse_file_entries_encode; assumption.
    + apply entries_of_paths.
  - intros b. split; [apply decode_ignore_returns|].
    split; [apply decode_path_scan|].
    apply utf8_replace_scan.
  - apply decode_path_cons_ascii.
  - apply decode_path_cons_invalid.
Qed.

Lemma paths_decoded_ignoring_errors_witness :
  exists es,
    parse_file_entries (layout_header sample_latin)
      (encode_index false [rec_latin] ++ bytes_of_string "x")
    = Returned es
    /\ map entry_path es = [str_of_string "ab"].
Proof.
  destruct (paths_decoded_ignoring_errors (layout_header sample_latin)
              [rec_latin] (bytes_of_string "x"))
    as ((es & H1 & H2) & _).
  - by_evaluation.
  - vm_compute. reflexivity.
  - exists es. split; [exact H1|]. rewrite H2. vm_compute. reflexivity.
Defined.

(** C8 as stated fails on a record whose path bytes are [61 FF 62]: the
    decoded path is ["ab"], the byte [FF] having been dropped, whereas
    decoding with replacement gives ["a"], U+FFFD, ["b"]. *)
Lemma invalid_byte_dropped_not_replaced :
  rec_path rec_latin = bytes_of [0x61; 0xFF; 0x62]
  /\ read_file_index (new_reader sample_latin)
     = Returned (indexed (opened sample_latin) (layout_header sample_latin)
                   [mkEntry [0x61; 0x62] 1 0 None],
                 [mkEntry [0x61; 0x62] 1 0 None])
  /\ bytes_decode_utf8 Replace (rec_path rec_latin)
     = Returned [0x61; 0xFFFD; 0x62]
  /\ bytes_decode_utf8 Ignore (rec_path rec_latin) = Returned [0x61; 0x62].
Proof.
  split; [reflexivity|].
  split; [vm_compute; reflexivity|].
  split; vm_compute; reflexivity.
Qed.

(** ** The inventory *)

Section InventoryProperties.
Context `{StrLib}.

Lemma count_entry_lookup (m : gmap str ExtInfo) (e : PackFileEntry)
    (k : str) :
  count_entry m e !! k
  = if decide (entry_ext e = k) then tally (m !! k) [e] else m !! k.
Proof.
  unfold count_entry.
  destruct (decide (entry_ext e = k)) as [<-|Hne].
  - rewrite !lookup_alter_eq.
    destruct (m !! entry_ext e) as [i|] eqn:E.
    + rewrite E. simpl. unfold len. simpl. do 2 f_equal; lia.
    + rewrite lookup_insert_eq. simpl. unfold len. simpl.
      do 2 f_equal; lia.
  - rewrite !lookup_alter_ne by exact Hne.
    destruct (m !! entry_ext e); [reflexivity|].
    apply lookup_insert_ne. exact Hne.
Qed.

Lemma tally_cons (base : option ExtInfo) (e : PackFileEntry)
    (g : list PackFileEntry) :
  tally (tally base [e]) g = tally base (e :: g).
Proof.
  destruct g as [|e' g]; [reflexivity|].
  unfold tally. simpl default. unfold len. simpl.
  f_equal. f_equal; lia.
Qed.

Lemma foldl_count_entry (es : list PackFileEntry) :
  forall (m : gmap str ExtInfo) (k : str),
  foldl count_entry m es !! k = tally (m !! k) (group k es).
Proof.
  induction es as [|e es IH]; intros m k; [reflexivity|].
  cbn [foldl]. rewrite IH, count_entry_lookup. unfold group.
  rewrite filter_cons.
  destruct (decide (entry_ext e = k)); [|reflexivity].
  apply tally_cons.
Qed.

Lemma Zsum_Permutation (a b : list Z) : a ≡ₚ b -> Zsum a = Zsum b.
Proof.
  induction 1; simpl; lia.
Qed.

Lemma tally_Permutation (base : option ExtInfo) (g g' : list PackFileEntry) :
  g ≡ₚ g' -> tally base g = tally base g'.
Proof.
  intros Hp. unfold tally.
  destruct g as [|e g], g' as [|e' g'].
  - reflexivity.
  - apply Permutation_nil_l in Hp. discriminate.
  - apply Permutation_nil_r in Hp. discriminate.
  - unfold len. rewrite (Permutation_length Hp).
    rewrite (Zsum_Permutation _ _ (Permutation_map entry_size Hp)).
    reflexivity.
Qed.

Lemma tally_group_info (g : list PackFileEntry) :
  tally None g = group_info g.
Proof.
  destruct g as [|e g]; [reflexivity|].
  unfold tally, group_info. simpl default. simpl ext_count. simpl ext_size.
  rewrite !Z.add_0_l. reflexivity.
Qed.

Lemma summarize_lookup (es : list PackFileEntry) (k : str) :
  summarize es !! k = group_info (group k es).
Proof.
  unfold summarize. rewrite foldl_count_entry, lookup_empty.
  apply tally_group_info.
Qed.

Lemma summarize_Permutation (es es' : list PackFileEntry) :
  es ≡ₚ es' -> summarize es = summarize es'.
Proof.
  intros Hp. apply map_eq. intros k. unfold summarize.
  rewrite !foldl_count_entry. apply tally_Permutation.
  unfold group. rewrite Hp. reflexivity.
Qed.

Lemma entry_ext_suffix (e : PackFileEntry) (k : str) :
  entry_ext e = k
  <-> (entry_suffix e = k /\ k <> [])
      \/ (entry_suffix e = [] /\ k = no_extension).
Proof.
  unfold entry_ext, entry_suffix.
  destruct (str_lower (path_suffix (entry_path e))) as [|c t].
  - split.
    + intros <-. right. split; reflexivity.
    + intros [[<- Hk]|[_ ->]]; [congruence | reflexivity].
  - split.
    + intros <-. left. split; [reflexivity | discriminate].
    + intros [[Hk _]|[Hk _]]; [exact Hk | discriminate].
Qed.

(** C9, as the code has it: [get_file_info] files every entry under a
    key, the lower-cased suffix of its path or [".no_extension"] when
    that is empty, and holds under each key the number of entries filed
    there and the sum of their sizes.  For a key other than
    [".no_extension"] these are the entries with that suffix; under
    [".no_extension"] they are the entries without suffix together with
    those whose lower-cased suffix is that very text; the empty string is
    no key.  A permutation of the entries gives the same dictionary, and
    no entries give the empty one. *)
Theorem summarize_groups_by_suffix (self self1 : PFH5Reader) :
  ensure_index self = Returned self1 ->
  exists info,
    get_file_info self = Returned (self1, info)
    /\ extensions info = summarize (entries self1)
    /\ (forall k, k <> [] -> k <> no_extension ->
          extensions info !! k
          = group_info (filter (fun e => entry_suffix e = k)
                          (entries self1)))
    /\ extensions info !! no_extension
       = group_info (filter (fun e => entry_suffix e = []
                                      \/ entry_suffix e = no_extension)
                       (entries self1))
    /\ extensions info !! [] = None
    /\ (forall es', es' ≡ₚ entries self1 ->
          summarize es' = extensions info)
    /\ (entries self1 = [] -> extensions info = ∅).
Proof.
  intros He. unfold get_file_info. rewrite He. cbn [mbind outcome_bind].
  eexists. split; [reflexivity|]. cbn [extensions].
  split; [reflexivity|].
  split; [|split; [|split; [|split]]].
  - intros k Hk Hs. rewrite summarize_lookup. f_equal. unfold group.
    apply list_filter_iff. intros e. rewrite entry_ext_suffix.
    split; [intros [[E _]|[_ E]]; [exact E | contradiction] | auto].
  - rewrite summarize_lookup. f_equal. unfold group.
    apply list_filter_iff. intros e. rewrite entry_ext_suffix.
    split.
    + intros [[E _]|[E _]]; [right | left]; exact E.
    + intros [E|E]; [right; split; [exact E | reflexivity]|].
      left. split; [exact E | discriminate].
  - rewrite summarize_lookup. unfold group.
    replace (filter (fun e => entry_ext e = []) (entries self1))
      with (@nil PackFileEntry); [reflexivity|].
    symmetry. induction (entries self1) as [|e es IH]; [reflexivity|].
    rewrite filter_cons_False; [exact IH|].
    rewrite entry_ext_suffix. intros [[_ E]|[_ E]]; [congruence|discriminate].
  - intros es' Hp. apply summarize_Permutation. exact Hp.
  - intros ->. reflexivity.
Qed.

(** On a reader that has entries, [get_file_info] reports their number,
    the sum of their sizes and their inventory. *)
Lemma get_file_info_ready (self : PFH5Reader) :
  entries self <> [] ->
  get_file_info self
  = Returned (self,
              mkFileInfo (len (entries self)) (sum_sizes (entries self))
                (summarize (entries self)) (header self)).
Proof.
  intros Hne. unfold get_file_info, ensure_index.
  destruct (entries self) eqn:E; [congruence|].
  cbn [mbind outcome_bind]. rewrite E. reflexivity.
Qed.
End InventoryProperties.

Lemma summarize_groups_by_suffix_witness :
  exists info,
    @get_file_info posix_ascii plain_reader = Returned (plain_reader, info)
    /\ extensions info !! str_of_string ".txt" = Some (mkExtInfo 2 5)
    /\ extensions info !! no_extension = None
    /\ @summarize posix_ascii [entry_b; entry_a] = extensions info.
Proof.
  destruct (@summarize_groups_by_suffix posix_ascii plain_reader plain_reader)
    as (info & H1 & _ & Hk & Hs & _ & Hp & _).
  - reflexivity.
  - exists info. split; [exact H1|].
    split; [rewrite Hk; [vm_compute; reflexivity | discriminate
                        | discriminate]|].
    split; [rewrite Hs; vm_compute; reflexivity|].
    apply Hp. apply Permutation_swap.
Defined.

(** C9 as stated fails on an archive with the members [README] and
    [x.NO_EXTENSION]: the inventory holds 2 entries and 12 bytes under
    [".no_extension"], where one entry has that suffix and one entry has
    no suffix. *)
Lemma sentinel_key_collides :
  exists ready info,
    @get_file_info posix_ascii (new_reader sample_sentinel)
    = Returned (ready, info)
    /\ map entry_path (entries ready)
       = [str_of_string "README"; str_of_string "x.NO_EXTENSION"]
    /\ map (@entry_suffix posix_ascii) (entries ready)
       = [[]; no_extension]
    /\ extensions info !! no_extension = Some (mkExtInfo 2 12)
    /\ len (filter (fun e => @entry_suffix posix_ascii e = no_extension)
              (entries ready)) = 1
    /\ len (filter (fun e => @entry_suffix posix_ascii e = [])
              (entries ready)) = 1
    /\ extensions info !! no_extension
       <> group_info
            (filter (fun e => @entry_suffix posix_ascii e = no_extension)
               (entries ready))
    /\ extensions info !! no_extension
       <> group_info
            (filter (fun e => @entry_suffix posix_ascii e = [])
               (entries ready)).
Proof.
  eexists. eexists. split; [vm_compute; reflexivity|].
  split; [vm_compute; reflexivity|].
  split; [vm_compute; reflexivity|].
  split; [vm_compute; reflexivity|].
  split; [vm_compute; reflexivity|].
  split; [vm_compute; reflexivity|].
  split; vm_compute; discriminate.
Qed.

(** * Further properties of the reader *)

(** ** Truncated indexes and over-stated counts *)

Lemma index_loop_extends (h : Header) (n : nat) (pre rest : bytes) (off : Z)
    (acc : list PackFileEntry) :
  exists more,
    index_loop h (pre ++ rest) n (len pre) off acc = Returned (acc ++ more).
Proof.
  destruct (index_loop_sound h n pre rest off acc)
    as (rs & _ & _ & _ & _ & Hl & _).
  eauto.
Qed.

Lemma decode_record_more (ts : bool) (rest extra : bytes) (r : IndexRecord)
    (rest1 : bytes) :
  decode_record ts rest = Some (r, rest1) ->
  decode_record ts (rest ++ extra)
  = Some (normal_record ts r, rest1 ++ extra).
Proof.
  intros E. destruct (decode_record_Some _ _ _ _ E) as [Hwf ->].
  rewrite <- app_assoc. apply decode_record_encode. exact Hwf.
Qed.

Lemma index_loop_prefix (h : Header) (n : nat) :
  forall (n' : nat) (pre rest extra : bytes) (off : Z)
         (acc : list PackFileEntry),
  (n <= n')%nat ->
  exists es more,
    index_loop h (pre ++ rest) n (len pre) off acc = Returned es
    /\ index_loop h (pre ++ rest ++ extra) n' (len pre) off acc
       = Returned (es ++ more).
Proof.
  induction n as [|n IH]; intros n' pre rest extra off acc Hn.
  - exists acc. destruct (index_loop_extends h n' pre (rest ++ extra) off acc)
      as [more Hm].
    exists more. split; [reflexivity | exact Hm].
  - destruct n' as [|n']; [lia|].
    cbn [index_loop]. rewrite !read_entry_decode_record.
    cbn [mbind outcome_bind].
    destruct (decode_record (has_timestamps h) rest) as [[r rest1]|] eqn:Ed.
    + rewrite (decode_record_more _ _ extra _ _ Ed), entry_of_normal.
      destruct (decode_record_Some _ _ _ _ Ed) as [Hwf Hrest].
      destruct (IH n' (pre ++ encode_record (has_timestamps h) r) rest1 extra
                  (next_offset h off (entry_size (entry_of h off r)))
                  (acc ++ [entry_of h off r]) ltac:(lia))
        as (es & more & H1 & H2).
      exists es, more.
      replace (len pre + len rest - len rest1)
        with (len (pre ++ encode_record (has_timestamps h) r))
        by (rewrite Hrest, !len_app; lia).
      replace (len pre + len (rest ++ extra) - len (rest1 ++ extra))
        with (len (pre ++ encode_record (has_timestamps h) r))
        by (rewrite Hrest, !len_app; lia).
      replace (pre ++ rest)
        with ((pre ++ encode_record (has_timestamps h) r) ++ rest1)
        by (rewrite Hrest, app_assoc; reflexivity).
      replace (pre ++ rest ++ extra)
        with ((pre ++ encode_record (has_timestamps h) r) ++ rest1 ++ extra)
        by (rewrite Hrest, <- !app_assoc; reflexivity).
      split; assumption.
    + exists acc.
      destruct (index_loop_extends h (S n') pre (rest ++ extra) off acc)
        as [more Hm].
      cbn [index_loop] in Hm. rewrite read_entry_decode_record in Hm.
      cbn [mbind outcome_bind] in Hm.
      exists more. split; [reflexivity | exact Hm].
Qed.

(** The loop reads two things of the header only, besides the count. *)
Lemma index_loop_flags (h h' : Header) (data : bytes) (n : nat) :
  has_timestamps h' = has_timestamps h ->
  data_padded h' = data_padded h ->
  forall (pos off : Z) (acc : list PackFileEntry),
  index_loop h' data n pos off acc = index_loop h data n pos off acc.
Proof.
  intros Hts Hpad. induction n as [|n IH]; intros pos off acc; [reflexivity|].
  cbn [index_loop].
  assert (Hre : read_entry h' data pos off = read_entry h data pos off).
  { unfold read_entry. rewrite Hts. reflexivity. }
  rewrite Hre.
  destruct (read_entry h data pos off) as [[|e pos']|]; try reflexivity.
  cbn [mbind outcome_bind].
  replace (next_offset h' off (entry_size e))
    with (next_offset h off (entry_size e))
    by (unfold next_offset; rewrite Hpad; reflexivity).
  apply IH.
Qed.

(** The loop on an index cut short, or run with a smaller count, returns a
    prefix of what it returns on the whole index with the larger count:
    the descriptors of a partial list are those of the full list. *)
Theorem truncation_gives_prefix (h h' : Header) (data extra : bytes) :
  has_timestamps h' = has_timestamps h ->
  data_padded h' = data_padded h ->
  file_index_count h <= file_index_count h' ->
  exists es more,
    parse_file_entries h data = Returned es
    /\ parse_file_entries h' (data ++ extra) = Returned (es ++ more).
Proof.
  intros Hts Hpad Hn.
  destruct (index_loop_prefix h (Z.to_nat (file_index_count h))
              (Z.to_nat (file_index_count h')) [] data extra 0 []
              ltac:(lia))
    as (es & more & H1 & H2).
  exists es, more. split; [exact H1|].
  unfold parse_file_entries.
  rewrite (index_loop_flags h h' _ _ Hts Hpad). exact H2.
Qed.

Lemma truncation_gives_prefix_witness :
  exists es more,
    parse_file_entries (layout_header sample_truncated)
      (take 12 (encode_index false [rec_a; rec_b]))
    = Returned es
    /\ parse_file_entries (layout_header sample_plain)
         (take 12 (encode_index false [rec_a; rec_b])
          ++ drop 12 (encode_index false [rec_a; rec_b]))
       = Returned (es ++ more).
Proof.
  apply (truncation_gives_prefix (layout_header sample_truncated)
           (layout_header sample_plain)).
  - vm_compute. reflexivity.
  - vm_compute. reflexivity.
  - vm_compute. discriminate.
Defined.

Lemma decode_record_short (ts : bool) (tail : bytes) :
  len tail < 5 -> decode_record ts tail = None.
Proof.
  intros Hl. unfold decode_record.
  destruct (find_zero tail) as [i|] eqn:Ei; [|reflexivity].
  apply find_zero_lt in Ei.
  destruct (Nat.ltb_spec (length (drop (S i) tail)) 4) as [|Hge];
    [reflexivity|].
  rewrite length_drop in Hge. unfold len in Hl. lia.
Qed.

Lemma index_loop_encode_more (h : Header) (rs : list IndexRecord) :
  forall (m : nat) (pre tail : bytes) (off : Z) (acc : list PackFileEntry),
  Forall wf_record rs ->
  len tail < 5 ->
  index_loop h (pre ++ encode_index (has_timestamps h) rs ++ tail)
    (length rs + m) (len pre) off acc
  = Returned (acc ++ entries_of h off rs).
Proof.
  induction rs as [|r rs IH]; intros m pre tail off acc Hwf Ht.
  - cbn [length encode_index map concat app entries_of Nat.add].
    rewrite app_nil_r. destruct m as [|m]; [reflexivity|].
    cbn [index_loop]. rewrite read_entry_decode_record.
    rewrite decode_record_short by exact Ht. reflexivity.
  - apply Forall_cons in Hwf as [Hr Hrs].
    cbn [length Nat.add index_loop]. rewrite read_entry_decode_record.
    unfold encode_index. cbn [map concat]. rewrite <- app_assoc.
    rewrite decode_record_encode by assumption.
    cbn [mbind outcome_bind]. rewrite entry_of_normal.
    fold (encode_index (has_timestamps h) rs).
    replace (len pre + len (encode_record (has_timestamps h) r
                              ++ encode_index (has_timestamps h) rs ++ tail)
             - len (encode_index (has_timestamps h) rs ++ tail))
      with (len (pre ++ encode_record (has_timestamps h) r))
      by (rewrite !len_app; lia).
    rewrite (app_assoc pre).
    rewrite IH by assumption.
    rewrite entries_of_cons, <- app_assoc, next_offset_stride. reflexivity.
Qed.

(** A member count larger than the number of records in the index block
    does no harm when at most four bytes follow the last record: the loop
    returns the descriptors of all the records and stops. *)
Theorem overstated_count_is_harmless (h : Header) (rs : list IndexRecord)
    (tail : bytes) :
  Forall wf_record rs ->
  Z.of_nat (length rs) <= file_index_count h ->
  len tail < 5 ->
  parse_file_entries h (encode_index (has_timestamps h) rs ++ tail)
  = Returned (entries_of h 0 rs).
Proof.
  intros Hwf Hn Ht. unfold parse_file_entries.
  replace (Z.to_nat (file_index_count h))
    with (length rs + (Z.to_nat (file_index_count h) - length rs))%nat
    by lia.
  exact (index_loop_encode_more h rs _ [] tail 0 [] Hwf Ht).
Qed.

Lemma overstated_count_is_harmless_witness :
  file_index_count (layout_header sample_padded) = 3
  /\ parse_file_entries (layout_header sample_padded)
       (encode_index (has_timestamps (layout_header sample_padded))
          [mkRecord (bytes_of_string "a.bin") 3 7]
        ++ bytes_of [0; 0; 0; 0])
     = Returned
         (entries_of (layout_header sample_padded) 0
            [mkRecord (bytes_of_string "a.bin") 3 7]).
Proof.
  split; [vm_compute; reflexivity|].
  apply (overstated_count_is_harmless (layout_header sample_padded)
           [mkRecord (bytes_of_string "a.bin") 3 7] (bytes_of [0; 0; 0; 0])).
  - by_evaluation.
  - vm_compute. discriminate.
  - vm_compute. reflexivity.
Defined.

(** ** What the returned descriptors always satisfy *)

Lemma encode_record_length (ts : bool) (r : IndexRecord) :
  len (encode_record ts r)
  = len (rec_path r) + (if ts then 9 else 5).
Proof.
  unfold encode_record. rewrite !len_app. unfold len. simpl length.
  destruct ts; simpl length; lia.
Qed.

Lemma encode_index_length (ts : bool) (rs : list IndexRecord) :
  (if ts then 9 else 5) * len rs <= len (encode_index ts rs).
Proof.
  induction rs as [|r rs IH].
  - unfold len. simpl. destruct ts; lia.
  - unfold encode_index in *. cbn [map concat]. rewrite len_app.
    rewrite encode_record_length.
    pose proof (len_nonneg (rec_path r)).
    replace (len (r :: rs)) with (len rs + 1) by (unfold len; simpl; lia).
    destruct ts; lia.
Qed.

(** What [read_file_index] returns on a clear index, in terms of records. *)
Lemma read_file_index_records (self self' : PFH5Reader)
    (es : list PackFileEntry) (h : Header) :
  read_file_index self = Returned (self', es) ->
  header self' = Some h ->
  index_encrypted h = false ->
  exists (rs : list IndexRecord) (rest : bytes),
    Forall wf_record rs
    /\ index_bytes self h = encode_index (has_timestamps h) rs ++ rest
    /\ es = entries_of h 0 rs
    /\ entries self' = es.
Proof.
  intros E Hh He.
  destruct (read_file_index_inv _ _ _ E)
    as (self1 & h1 & _ & _ & Hpf & [(He1 & _ & ->)|(_ & _ & Hp & ->)]).
  { injection Hh as ->. congruence. }
  injection Hh as ->.
  destruct (parse_file_entries_sound h (index_bytes self1 h))
    as (rs & rest & Hwf & Hsplit & _ & Hs & _).
  rewrite Hs in Hp. injection Hp as <-.
  exists rs, rest. unfold index_bytes in *. rewrite <- Hpf.
  repeat split; assumption.
Qed.

(** Every record takes at least five bytes of the index block, nine with
    a timestamp, so the index block bounds the number of descriptors
    whatever the header's member count says. *)
Theorem entries_bounded_by_index_bytes (self self' : PFH5Reader)
    (es : list PackFileEntry) (h : Header) :
  read_file_index self = Returned (self', es) ->
  header self' = Some h ->
  index_encrypted h = false ->
  (if has_timestamps h then 9 else 5) * len es <= len (index_bytes self h)
  /\ (0 <= file_index_size h ->
      (if has_timestamps h then 9 else 5) * len es <= file_index_size h).
Proof.
  intros E Hh He.
  destruct (read_file_index_records _ _ _ _ E Hh He)
    as (rs & rest & _ & Hsplit & -> & _).
  assert (Hb : (if has_timestamps h then 9 else 5) * len (entries_of h 0 rs)
               <= len (index_bytes self h)).
  { rewrite Hsplit, len_app. unfold len at 1. rewrite entries_of_length.
    pose proof (encode_index_length (has_timestamps h) rs).
    pose proof (len_nonneg rest). unfold len in *. lia. }
  split; [exact Hb|].
  intros Hn. etransitivity; [exact Hb|].
  unfold index_bytes, file_read, len.
  destruct (Z.ltb_spec (file_index_size h) 0); [lia|].
  rewrite length_take. lia.
Qed.

Lemma entries_bounded_by_index_bytes_witness :
  9 * len padded_entries
  <= len (index_bytes (new_reader sample_padded)
            (layout_header sample_padded))
  /\ (0 <= file_index_size (layout_header sample_padded) ->
      9 * len padded_entries <= file_index_size (layout_header sample_padded)).
Proof.
  apply (entries_bounded_by_index_bytes (new_reader sample_padded)
           (indexed (opened sample_padded) (layout_header sample_padded)
              padded_entries)
           padded_entries (layout_header sample_padded)).
  - vm_compute. reflexivity.
  - reflexivity.
  - vm_compute. reflexivity.
Defined.

Lemma entries_of_invariants (h : Header) (rs : list IndexRecord) :
  forall off : Z,
  Forall wf_record rs ->
  0 <= off ->
  (data_padded h = true -> off mod 8 = 0) ->
  Forall (fun e =>
            uint32 (entry_size e)
            /\ 0 <= entry_offset e
            /\ (data_padded h = true -> entry_offset e mod 8 = 0)
            /\ entry_timestamp e
               = (if has_timestamps h
                  then Some (default 0 (entry_timestamp e)) else None)
            /\ uint32 (default 0 (entry_timestamp e)))
    (entries_of h off rs).
Proof.
  induction rs as [|r rs IH]; intros off Hwf Hoff Hal; [constructor|].
  apply Forall_cons in Hwf as [(Hz & Hsz & Hts) Hrs].
  cbn [entries_of]. constructor.
  - unfold entry_of. cbn.
    split; [exact Hsz|]. split; [exact Hoff|]. split; [exact Hal|].
    destruct (has_timestamps h); cbn; split; try reflexivity; try exact Hts.
    unfold uint32. lia.
  - apply IH; [exact Hrs | |].
    + pose proof (stride_nonneg (data_padded h) (rec_size r) (proj1 Hsz)). lia.
    + intros Hp. specialize (Hal Hp). unfold stride. rewrite Hp.
      destruct (round_up_8_spec (rec_size r)) as [Hm _].
      rewrite Z.add_mod, Hal, Hm by lia. reflexivity.
Qed.

(** Every descriptor [read_file_index] returns has a size in the unsigned
    32-bit range and a data offset that is not negative, and a multiple of
    8 under the data-padded flag; it has a timestamp, in that range too,
    exactly when the header has the timestamps flag. *)
Theorem decoded_entries_well_formed (self self' : PFH5Reader)
    (es : list PackFileEntry) (h : Header) (e : PackFileEntry) :
  read_file_index self = Returned (self', es) ->
  header self' = Some h ->
  e ∈ es ->
  uint32 (entry_size e)
  /\ 0 <= entry_offset e
  /\ (data_padded h = true -> entry_offset e mod 8 = 0)
  /\ (has_timestamps h = true ->
      exists t, entry_timestamp e = Some t /\ uint32 t)
  /\ (has_timestamps h = false -> entry_timestamp e = None).
Proof.
  intros E Hh Hin.
  destruct (index_encrypted h) eqn:He.
  { destruct (read_file_index_inv _ _ _ E)
      as (self1 & h1 & _ & _ & _ & [(_ & -> & _)|(He1 & _ & _ & ->)]).
    - apply elem_of_nil in Hin. contradiction.
    - injection Hh as ->. congruence. }
  destruct (read_file_index_records _ _ _ _ E Hh He)
    as (rs & rest & Hwf & _ & -> & _).
  pose proof (entries_of_invariants h rs 0 Hwf ltac:(lia)
                ltac:(intros _; reflexivity)) as Hall.
  rewrite Forall_forall in Hall.
  destruct (Hall e Hin) as (H1 & H2 & H3 & H4 & H5).
  split; [exact H1|]. split; [exact H2|]. split; [exact H3|].
  split; intros Hts; rewrite Hts in H4; [|exact H4].
  eexists. split; [exact H4 | exact H5].
Qed.

Lemma decoded_entries_well_formed_witness :
  Forall (fun e =>
    uint32 (entry_size e) /\ 0 <= entry_offset e
    /\ entry_offset e mod 8 = 0
    /\ exists t, entry_timestamp e = Some t /\ uint32 t) padded_entries.
Proof.
  apply Forall_forall. intros e Hin.
  destruct (decoded_entries_well_formed (new_reader sample_padded)
              (indexed (opened sample_padded) (layout_header sample_padded)
                 padded_entries)
              padded_entries (layout_header sample_padded) e)
    as (H1 & H2 & H3 & H4 & _).
  - vm_compute. reflexivity.
  - reflexivity.
  - exact Hin.
  - split; [exact H1|]. split; [exact H2|].
    split; [apply H3; vm_compute; reflexivity|].
    apply H4. vm_compute. reflexivity.
Defined.

(** The byte ranges of the members do not overlap and follow the index
    order: a member ends at or before the start of every later member. *)
Theorem member_ranges_ordered (self self' : PFH5Reader)
    (es : list PackFileEntry) (i j : nat) (e1 e2 : PackFileEntry) :
  read_file_index self = Returned (self', es) ->
  (i < j)%nat ->
  es !! i = Some e1 ->
  es !! j = Some e2 ->
  entry_offset e1 + entry_size e1 <= entry_offset e2.
Proof.
  intros E Hij H1 H2.
  destruct (read_file_index_inv _ _ _ E)
    as (self1 & h & _ & _ & _ & [(_ & -> & _)|(_ & _ & Hp & _)]).
  { discriminate. }
  destruct (parse_file_entries_sound h (index_bytes self1 h))
    as (rs & rest & Hwf & _ & _ & Hs & _).
  rewrite Hs in Hp. injection Hp as <-.
  destruct (lookup_lt_is_Some_2 (entries_of h 0 rs) (S i)) as [e' He'].
  { apply lookup_lt_Some in H2. lia. }
  pose proof (entries_of_next _ _ _ _ _ _ H1 He') as Hn.
  pose proof (entries_of_monotone h rs 0 (S i) j e' e2 Hwf ltac:(lia) He' H2).
  assert (Hin : e1 ∈ entries_of h 0 rs)
    by (apply list_elem_of_lookup; eauto).
  pose proof (entries_of_sizes_nonneg h rs 0 Hwf) as Hnn.
  rewrite Forall_forall in Hnn. specialize (Hnn e1 Hin).
  assert (entry_size e1 <= stride (data_padded h) (entry_size e1)); [|lia].
  unfold stride. destruct (data_padded h); [|lia].
  pose proof (round_up_8_spec (entry_size e1)). lia.
Qed.

Lemma member_ranges_ordered_witness :
  entry_offset (mkEntry (str_of_string "a.bin") 3 0 (Some 7))
  + entry_size (mkEntry (str_of_string "a.bin") 3 0 (Some 7))
  <= entry_offset (mkEntry (str_of_string "c") 10 16 (Some 1)).
Proof.
  apply (member_ranges_ordered (new_reader sample_padded)
           (indexed (opened sample_padded) (layout_header sample_padded)
              padded_entries)
           padded_entries 0 2).
  - vm_compute. reflexivity.
  - lia.
  - reflexivity.
  - reflexivity.
Defined.

(** ** Reading the index again *)

(** [read_file_index] never changes the content of the file nor a header
    that is already loaded, and only adds to what has been printed. *)
Theorem read_file_index_frame (self self' : PFH5Reader)
    (es : list PackFileEntry) :
  read_file_index self = Returned (self', es) ->
  pack_file self' = pack_file self
  /\ (forall h, header self = Some h -> header self' = Some h)
  /\ (exists out, stdout self' = stdout self ++ out)
  /\ (es <> [] -> entries self' = es /\ stdout self' = stdout self).
Proof.
  intros E.
  destruct (read_file_index_inv _ _ _ E)
    as (self1 & h1 & Hhd & Hh1 & Hpf & Hcase).
  assert (Hout : stdout self1 = stdout self).
  { destruct Hhd as [[_ ->]|[_ Hr]]; [reflexivity|].
    destruct (read_header_inv _ _ _ Hr) as (_ & _ & _ & ->). reflexivity. }
  assert (Hkeep : forall h, header self = Some h -> h1 = h).
  { intros h Hh. destruct Hhd as [[Hs _]|[Hn _]]; congruence. }
  destruct Hcase as [(_ & -> & ->)|(_ & _ & _ & ->)]; cbn.
  - split; [exact Hpf|]. split; [intros h Hh; f_equal; auto|].
    split; [rewrite Hout; eauto|]. intros Hne. congruence.
  - split; [exact Hpf|]. split; [intros h Hh; f_equal; auto|].
    split; [exists []; rewrite app_nil_r; exact Hout|].
    intros _. split; [reflexivity | exact Hout].
Qed.

Lemma read_file_index_frame_witness :
  pack_file plain_reader = pack_file (new_reader sample_plain)
  /\ (forall h, header (new_reader sample_plain) = Some h ->
        header plain_reader = Some h)
  /\ (exists out, stdout plain_reader = stdout (new_reader sample_plain) ++ out)
  /\ ([entry_a; entry_b] <> [] ->
      entries plain_reader = [entry_a; entry_b]
      /\ stdout plain_reader = stdout (new_reader sample_plain)).
Proof.
  apply (read_file_index_frame (new_reader sample_plain) plain_reader
           [entry_a; entry_b]).
  vm_compute. reflexivity.
Defined.

(** Reading a clear index a second time gives the same descriptors and
    leaves the reader as it was; reading an encrypted index a second time
    gives the empty list again and prints the warning once more. *)
Theorem read_file_index_again (self self' : PFH5Reader)
    (es : list PackFileEntry) (h : Header) :
  read_file_index self = Returned (self', es) ->
  header self' = Some h ->
  read_file_index self'
  = if index_encrypted h
    then Returned (mkReader (pack_file self') (Some h) (entries self')
                     (file_data_offset self')
                     (stdout self' ++ [encrypted_warning]), [])
    else Returned (self', es).
Proof.
  intros E Hh.
  destruct (read_file_index_inv _ _ _ E)
    as (self1 & h1 & _ & Hh1 & _ & [(He & -> & ->)|(He & Hs & Hp & ->)]);
    cbn in Hh; injection Hh as ->; rewrite He.
  - rewrite (read_file_index_encrypted (warned self1 h) h eq_refl He).
    reflexivity.
  - rewrite (read_file_index_clear (indexed self1 h es) h eq_refl He Hs).
    change (index_bytes (indexed self1 h es) h) with (index_bytes self1 h).
    rewrite Hp. reflexivity.
Qed.

Lemma read_file_index_again_witness :
  read_file_index plain_reader = Returned (plain_reader, [entry_a; entry_b]).
Proof.
  rewrite (read_file_index_again (new_reader sample_plain) plain_reader
             [entry_a; entry_b] (layout_header sample_plain)).
  - vm_compute. reflexivity.
  - vm_compute. reflexivity.
  - reflexivity.
Defined.

(** ** Round trips *)

Lemma field_at_packed (file pre post : bytes) (v off : Z) :
  file = pre ++ struct_pack_I v ++ post ->
  off = len pre ->
  uint32 v ->
  field_at file off = v.
Proof.
  intros -> -> Hv. unfold field_at.
  rewrite (slice_at pre _ (len pre) (len pre + 4) 0 4) by lia.
  rewrite drop_0, (take_app_length' _ _ 4) by reflexivity.
  apply le_uint_pack. exact Hv.
Qed.

Lemma layout_header_encode (bitmask pc ps c isz ts sig : Z) (rest : bytes) :
  uint32 bitmask -> uint32 pc -> uint32 ps -> uint32 c -> uint32 isz ->
  uint32 ts -> uint32 sig ->
  layout_header (encode_header bitmask pc ps c isz ts sig ++ rest)
  = mkHeader "PFH5" (bitmask mod 16) bitmask (Z.land bitmask 0xFFFFFFF0)
      pc ps c isz ts sig
      (Z.testbit bitmask 20) (Z.testbit bitmask 15)
      (Z.testbit bitmask 10) (Z.testbit bitmask 4).
Proof.
  intros Hb Hpc Hps Hc Hi Ht Hs.
  set (file := encode_header bitmask pc ps c isz ts sig ++ rest).
  assert (E4 : field_at file 4 = bitmask).
  { apply (field_at_packed file PFH5_magic
             (struct_pack_I pc ++ struct_pack_I ps ++ struct_pack_I c
              ++ struct_pack_I isz ++ struct_pack_I ts ++ struct_pack_I sig
              ++ rest)); [|reflexivity|exact Hb].
    unfold file, encode_header. rewrite <- !app_assoc. reflexivity. }
  assert (E8 : field_at file 8 = pc).
  { apply (field_at_packed file (PFH5_magic ++ struct_pack_I bitmask)
             (struct_pack_I ps ++ struct_pack_I c
              ++ struct_pack_I isz ++ struct_pack_I ts ++ struct_pack_I sig
              ++ rest)); [|reflexivity|exact Hpc].
    unfold file, encode_header. rewrite <- !app_assoc. reflexivity. }
  assert (E12 : field_at file 12 = ps).
  { apply (field_at_packed file
             (PFH5_magic ++ struct_pack_I bitmask ++ struct_pack_I pc)
             (struct_pack_I c
              ++ struct_pack_I isz ++ struct_pack_I ts ++ struct_pack_I sig
              ++ rest)); [|reflexivity|exact Hps].
    unfold file, encode_header. rewrite <- !app_assoc. reflexivity. }
  assert (E16 : field_at file 16 = c).
  { apply (field_at_packed file
             (PFH5_magic ++ struct_pack_I bitmask ++ struct_pack_I pc
              ++ struct_pack_I ps)
             (struct_pack_I isz ++ struct_pack_I ts ++ struct_pack_I sig
              ++ rest)); [|reflexivity|exact Hc].
    unfold file, encode_header. rewrite <- !app_assoc. reflexivity. }
  assert (E20 : field_at file 20 = isz).
  { apply (field_at_packed file
             (PFH5_magic ++ struct_pack_I bitmask ++ struct_pack_I pc
              ++ struct_pack_I ps ++ struct_pack_I c)
             (struct_pack_I ts ++ struct_pack_I sig ++ rest));
      [|reflexivity|exact Hi].
    unfold file, encode_header. rewrite <- !app_assoc. reflexivity. }
  assert (E24 : field_at file 24 = ts).
  { apply (field_at_packed file
             (PFH5_magic ++ struct_pack_I bitmask ++ struct_pack_I pc
              ++ struct_pack_I ps ++ struct_pack_I c ++ struct_pack_I isz)
             (struct_pack_I sig ++ rest)); [|reflexivity|exact Ht].
    unfold file, encode_header. rewrite <- !app_assoc. reflexivity. }
  assert (E28 : field_at file 28 = sig).
  { apply (field_at_packed file
             (PFH5_magic ++ struct_pack_I bitmask ++ struct_pack_I pc
              ++ struct_pack_I ps ++ struct_pack_I c ++ struct_pack_I isz
              ++ struct_pack_I ts)
             rest); [|reflexivity|exact Hs].
    unfold file, encode_header. rewrite <- !app_assoc. reflexivity. }
  unfold layout_header. rewrite E4, E8, E12, E16, E20, E24, E28. reflexivity.
Qed.

Lemma encode_header_shape (bitmask pc ps c isz ts sig : Z) (rest : bytes) :
  32 <= len (encode_header bitmask pc ps c isz ts sig ++ rest)
  /\ slice (encode_header bitmask pc ps c isz ts sig ++ rest) 0 4
     = PFH5_magic
  /\ drop 32 (encode_header bitmask pc ps c isz ts sig ++ rest) = rest.
Proof.
  split; [|split].
  - rewrite len_app. pose proof (len_nonneg rest).
    change (len (encode_header bitmask pc ps c isz ts sig)) with 32. lia.
  - reflexivity.
  - reflexivity.
Qed.

(** [read_header] gives back the field values a header was written with:
    on a file that starts with the tag and seven unsigned 32-bit values in
    little-endian order, it returns those values, the low nibble of the
    first as the pack type and its bits 20, 15, 10 and 4 as the flags. *)
Theorem header_round_trip (self : PFH5Reader)
    (bitmask pc ps c isz ts sig : Z) (rest : bytes) :
  pack_file self = encode_header bitmask pc ps c isz ts sig ++ rest ->
  uint32 bitmask -> uint32 pc -> uint32 ps -> uint32 c -> uint32 isz ->
  uint32 ts -> uint32 sig ->
  let h := mkHeader "PFH5" (bitmask mod 16) bitmask
             (Z.land bitmask 0xFFFFFFF0) pc ps c isz ts sig
             (Z.testbit bitmask 20) (Z.testbit bitmask 15)
             (Z.testbit bitmask 10) (Z.testbit bitmask 4) in
  read_header self = Returned (set_header self h, h).
Proof.
  intros Hf Hb Hpc Hps Hc Hi Ht Hs h.
  destruct (encode_header_shape bitmask pc ps c isz ts sig rest)
    as (Hlen & Hm & _).
  rewrite <- Hf in Hlen, Hm.
  rewrite (read_header_ok self Hlen Hm), Hf.
  rewrite layout_header_encode by assumption. reflexivity.
Qed.

Lemma header_round_trip_witness :
  read_header
    (new_reader (encode_header 0x100413 1 2 3 4 5 6 ++ bytes_of_string "xyz"))
  = Returned
      (set_header
         (new_reader
            (encode_header 0x100413 1 2 3 4 5 6 ++ bytes_of_string "xyz"))
         (mkHeader "PFH5" 3 0x100413 0x100410 1 2 3 4 5 6 true false true true),
       mkHeader "PFH5" 3 0x100413 0x100410 1 2 3 4 5 6 true false true true).
Proof.
  apply (header_round_trip
           (new_reader
              (encode_header 0x100413 1 2 3 4 5 6 ++ bytes_of_string "xyz"))
           0x100413 1 2 3 4 5 6 (bytes_of_string "xyz"));
    try reflexivity; by_evaluation.
Defined.

Lemma header_round_trip_aux (file : bytes) (bitmask ps c isz : Z)
    (rest : bytes) :
  file = encode_header bitmask 0 ps c isz 0 0 ++ rest ->
  uint32 bitmask -> uint32 ps -> uint32 c -> uint32 isz ->
  read_header (new_reader file)
  = Returned
      (set_header (new_reader file)
         (mkHeader "PFH5" (bitmask mod 16) bitmask
            (Z.land bitmask 0xFFFFFFF0) 0 ps c isz 0 0
            (Z.testbit bitmask 20) (Z.testbit bitmask 15)
            (Z.testbit bitmask 10) (Z.testbit bitmask 4)),
       mkHeader "PFH5" (bitmask mod 16) bitmask
         (Z.land bitmask 0xFFFFFFF0) 0 ps c isz 0 0
         (Z.testbit bitmask 20) (Z.testbit bitmask 15)
         (Z.testbit bitmask 10) (Z.testbit bitmask 4)).
Proof.
  intros Hf Hb Hps Hc Hi.
  assert (Hz : uint32 0) by (unfold uint32; lia).
  destruct (encode_header_shape bitmask 0 ps c isz 0 0 rest)
    as (Hlen & Hm & _).
  rewrite <- Hf in Hlen, Hm.
  rewrite (read_header_ok (new_reader file) Hlen Hm).
  cbn [new_reader pack_file]. rewrite Hf.
  rewrite layout_header_encode by assumption. reflexivity.
Qed.

Lemma member_chunk_length (padded : bool) (m : Member) :
  len (member_chunk padded m) = stride padded (len (member_data m)).
Proof.
  unfold member_chunk. rewrite len_app. unfold len at 2.
  rewrite length_replicate.
  pose proof (len_nonneg (member_data m)).
  assert (len (member_data m) <= stride padded (len (member_data m))).
  { unfold stride. destruct padded; [|lia].
    pose proof (round_up_8_spec (len (member_data m))). lia. }
  lia.
Qed.

(** The descriptor of member [i] points, from [off] on, at the bytes of
    that member in the data region. *)
Lemma entries_of_members (h : Header) (ms : list Member) :
  forall (off : Z) (i : nat) (m : Member),
  Forall wf_member ms ->
  ms !! i = Some m ->
  exists e,
    entries_of h off (map member_record ms) !! i = Some e
    /\ e = entry_of h (entry_offset e) (member_record m)
    /\ off <= entry_offset e
    /\ take (length (member_data m))
         (drop (Z.to_nat (entry_offset e - off))
            (encode_data (data_padded h) ms))
       = member_data m.
Proof.
  induction ms as [|m0 ms IH]; intros off i m Hwf Hi; [discriminate|].
  apply Forall_cons in Hwf as [Hm0 Hms].
  destruct i as [|i].
  - injection Hi as ->. exists (entry_of h off (member_record m)).
    split; [reflexivity|]. split; [reflexivity|]. split; [cbn; lia|].
    cbn [entry_of entry_offset]. rewrite Z.sub_diag. cbn [Z.to_nat drop].
    unfold encode_data. cbn [map concat]. unfold member_chunk.
    rewrite <- app_assoc. apply take_app_length.
  - cbn [map entries_of lookup list_lookup].
    destruct (IH (off + stride (data_padded h) (rec_size (member_record m0)))
                i m Hms Hi) as (e & He & Heq & Hle & Hd).
    exists e. split; [exact He|]. split; [exact Heq|].
    pose proof (member_chunk_length (data_padded h) m0) as Hcl.
    assert (Hnn : 0 <= stride (data_padded h) (len (member_data m0))).
    { rewrite <- Hcl. apply len_nonneg. }
    cbn [member_record rec_size] in Hle.
    split; [lia|].
    unfold encode_data. cbn [map concat].
    fold (encode_data (data_padded h) ms).
    replace (Z.to_nat (entry_offset e - off))
      with (length (member_chunk (data_padded h) m0)
            + Z.to_nat (entry_offset e
                        - (off + stride (data_padded h)
                                   (rec_size (member_record m0)))))%nat.
    + rewrite drop_app_add. exact Hd.
    + cbn [member_record rec_size]. unfold len in *. lia.
Qed.

(** Reading the index of a built archive. *)
Lemma build_archive_index (bitmask : Z) (skipped : bytes) (ms : list Member) :
  buildable bitmask skipped ms ->
  read_file_index (new_reader (build_archive bitmask skipped ms))
  = Returned (built_reader bitmask skipped ms,
              entries_of (built_header bitmask skipped ms) 0
                (map member_record ms))
  /\ file_data_offset (built_reader bitmask skipped ms)
     = 32 + len skipped
       + len (encode_index (Z.testbit bitmask 10) (map member_record ms))
  /\ forall k : nat,
       drop (Z.to_nat (32 + len skipped + Z.of_nat k))
         (build_archive bitmask skipped ms)
       = drop k (encode_index (Z.testbit bitmask 10) (map member_record ms)
                 ++ encode_data (Z.testbit bitmask 4) ms).
Proof.
  intros (Hb & Henc & Hext & Hsk & Hn & Hidx & Hwf).
  unfold built_reader.
  set (ext := if Z.testbit bitmask 20 then 20 else 0) in *.
  set (idx := encode_index (Z.testbit bitmask 10) (map member_record ms)) in *.
  set (data := encode_data (Z.testbit bitmask 4) ms).
  set (file := build_archive bitmask skipped ms).
  assert (Hfile : file
            = encode_header bitmask 0 (len skipped - ext) (len ms) (len idx)
                0 0 ++ skipped ++ idx ++ data) by reflexivity.
  assert (Hz : uint32 0) by (unfold uint32; lia).
  assert (Hps : uint32 (len skipped - ext)).
  { unfold uint32 in *. subst ext. destruct (Z.testbit bitmask 20); lia. }
  set (h := built_header bitmask skipped ms).
  pose proof (header_round_trip_aux file bitmask (len skipped - ext) (len ms)
                (len idx) (skipped ++ idx ++ data) Hfile Hb Hps Hn Hidx)
    as Hrh.
  change (mkHeader "PFH5" (bitmask mod 16) bitmask
            (Z.land bitmask 0xFFFFFFF0) 0 (len skipped - ext) (len ms)
            (len idx) 0 0 (Z.testbit bitmask 20) (Z.testbit bitmask 15)
            (Z.testbit bitmask 10) (Z.testbit bitmask 4)) with h in Hrh.
  assert (Hhd : header (set_header (new_reader file) h) = Some h)
    by reflexivity.
  assert (Hstart : index_start h = 32 + len skipped).
  { unfold index_start, header_size, h, built_header.
    cbn [has_extended_header pf_index_size].
    subst ext. destruct (Z.testbit bitmask 20); lia. }
  assert (Hdrop : forall k : nat,
            drop (Z.to_nat (32 + len skipped + Z.of_nat k)) file
            = drop k (idx ++ data)).
  { intros k. rewrite Hfile.
    replace (Z.to_nat (32 + len skipped + Z.of_nat k))
      with (length (encode_header bitmask 0 (len skipped - ext) (len ms)
                      (len idx) 0 0)
            + (length skipped + k))%nat
      by (change (length (encode_header _ _ _ _ _ _ _)) with 32%nat;
          unfold len; lia).
    rewrite drop_app_add, drop_app_add. reflexivity. }
  assert (Hib : index_bytes (set_header (new_reader file) h) h = idx).
  { unfold index_bytes, file_read. rewrite Hstart.
    change (file_index_size h) with (len idx).
    cbn [set_header new_reader pack_file].
    pose proof (len_nonneg idx).
    destruct (Z.ltb_spec (len idx) 0); [lia|].
    pose proof (Hdrop 0%nat) as Hd. rewrite Z.add_0_r in Hd.
    rewrite Hd, drop_0. unfold len. rewrite Nat2Z.id.
    apply take_app_length. }
  split; [|split; [|exact Hdrop]].
  - rewrite (read_file_index_fresh (new_reader file) _ _ eq_refl Hrh).
    rewrite (read_file_index_clear _ h Hhd Henc)
      by (rewrite Hstart; pose proof (len_nonneg skipped); lia).
    rewrite Hib. unfold idx.
    rewrite <- (app_nil_r (encode_index _ _)).
    change (Z.testbit bitmask 10) with (has_timestamps h).
    rewrite parse_file_entries_encode; [reflexivity| |].
    + apply Forall_map. exact Hwf.
    + rewrite length_map. reflexivity.
  - unfold indexed, header_size, h, built_header.
    cbn [file_data_offset has_extended_header pf_index_size file_index_size].
    fold idx. subst ext. destruct (Z.testbit bitmask 20); lia.
Qed.





(** An archive built from members is read back member by member: the
    index gives one descriptor per member, in order, with the member's
    decoded path, its size and, under the timestamps flag, its timestamp;
    and [extract_file] on that descriptor returns the member's bytes
    exactly, with or without padding and extended header. *)
Theorem archive_round_trip (bitmask : Z) (skipped : bytes)
    (ms : list Member) :
  buildable bitmask skipped ms ->
  exists ready es,
    read_file_index (new_reader (build_archive bitmask skipped ms))
    = Returned (ready, es)
    /\ length es = length ms
    /\ forall i m, ms !! i = Some m ->
         exists e,
           es !! i = Some e
           /\ entry_path e = decode_path (member_path m)
           /\ entry_size e = len (member_data m)
           /\ entry_timestamp e
              = (if Z.testbit bitmask 10 then Some (member_time m) else None)
           /\ extract_file ready e = Returned (ready, member_data m).
Proof.
  intros Hbuild.
  destruct (build_archive_index bitmask skipped ms Hbuild)
    as (Hread & Hfdo & Hdrop).
  destruct Hbuild as (_ & _ & _ & _ & _ & _ & Hwf).
  set (h := built_header bitmask skipped ms) in *.
  set (ready := built_reader bitmask skipped ms) in *.
  set (es := entries_of h 0 (map member_record ms)) in *.
  set (idx := encode_index (Z.testbit bitmask 10) (map member_record ms)) in *.
  exists ready, es. split; [exact Hread|].
  split; [unfold es; rewrite entries_of_length, length_map; reflexivity|].
  intros i m Hi.
  destruct (entries_of_members h ms 0 i m Hwf Hi)
    as (e & He & Heq & Hle & Hd).
  exists e. split; [exact He|].
  rewrite Heq at 1 2 3. cbn [entry_of entry_path entry_size entry_timestamp
                               member_record rec_path rec_size rec_timestamp].
  split; [reflexivity|]. split; [reflexivity|]. split; [reflexivity|].
  assert (Hpfile : pack_file ready = build_archive bitmask skipped ms)
    by reflexivity.
  assert (Hents : entries ready = es) by reflexivity.
  assert (Hes : es <> []).
  { intros Hnil. fold es in He. rewrite Hnil in He. discriminate. }
  assert (Hens : ensure_index ready = Returned ready).
  { unfold ensure_index. rewrite Hents. destruct es; congruence. }
  unfold extract_file. rewrite Hens. cbn [mbind outcome_bind].
  rewrite Hfdo, Hpfile. unfold file_seek.
  assert (Hpos : 32 + len skipped + len idx + entry_offset e
                 = 32 + len skipped
                   + Z.of_nat (length idx + Z.to_nat (entry_offset e))).
  { unfold len. lia. }
  rewrite Hpos.
  destruct (Z.ltb_spec
              (32 + len skipped
               + Z.of_nat (length idx + Z.to_nat (entry_offset e))) 0);
    [pose proof (len_nonneg skipped); lia|].
  cbn [mbind outcome_bind]. unfold file_read.
  assert (Hsz : entry_size e = len (member_data m)).
  { rewrite Heq. reflexivity. }
  rewrite Hsz. pose proof (len_nonneg (member_data m)).
  destruct (Z.ltb_spec (len (member_data m)) 0); [lia|].
  rewrite Hdrop, drop_app_add. unfold len. rewrite Nat2Z.id.
  rewrite Z.sub_0_r in Hd. f_equal. f_equal. exact Hd.
Qed.

Lemma archive_round_trip_witness :
  exists ready es,
    read_file_index
      (new_reader (build_archive 0x100413 (repeat Byte.xee 25) sample_members))
    = Returned (ready, es)
    /\ length es = 3%nat
    /\ exists e,
         es !! 1%nat = Some e
         /\ entry_size e = 10
         /\ extract_file ready e = Returned (ready, bytes_of_string "0123456789").
Proof.
  destruct (archive_round_trip 0x100413 (repeat Byte.xee 25) sample_members)
    as (ready & es & H1 & H2 & H3).
  - split; [by_evaluation|]. split; [vm_compute; reflexivity|].
    split; [vm_compute; discriminate|]. split; [by_evaluation|].
    split; [by_evaluation|]. split; [by_evaluation|].
    unfold wf_member. by_evaluation.
  - exists ready, es. split; [exact H1|]. split; [exact H2|].
    destruct (H3 1%nat _ eq_refl) as (e & He & _ & Hs & _ & Hx).
    exists e. split; [exact He|]. split; [exact Hs | exact Hx].
Defined.

(** ** Listing and searching *)

Lemma str_startswith_spec (s prefix : str) :
  str_startswith s prefix = true <-> exists t, s = prefix ++ t.
Proof.
  revert s. induction prefix as [|a p IH]; intros s.
  - split; [eauto | intros _; destruct s; reflexivity].
  - destruct s as [|b s]; simpl.
    + split; [discriminate | intros [t Ht]; discriminate].
    + rewrite andb_true_iff, Z.eqb_eq, IH. split.
      * intros [-> [t ->]]. eauto.
      * intros [t [= -> ->]]. eauto.
Qed.

Lemma str_contains_spec (needle hay : str) :
  str_contains needle hay = true <-> exists a b, hay = a ++ needle ++ b.
Proof.
  induction hay as [|c hay IH]; cbn [str_contains].
  - rewrite orb_false_r, str_startswith_spec. split.
    + intros [t Ht]. exists [], t. exact Ht.
    + intros (a & b & Hab). symmetry in Hab.
      apply app_eq_nil in Hab as [-> Hab].
      apply app_eq_nil in Hab as [-> ->]. exists []. reflexivity.
  - rewrite orb_true_iff, str_startswith_spec, IH. split.
    + intros [[t Ht]|(a & b & ->)].
      * exists [], t. exact Ht.
      * exists (c :: a), b. reflexivity.
    + intros (a & b & Hab). destruct a as [|c' a].
      * left. exists b. exact Hab.
      * right. injection Hab as -> ->. eauto.
Qed.

Lemma str_endswith_spec (s suffix : str) :
  str_endswith s suffix = true <-> exists a, s = a ++ suffix.
Proof.
  unfold str_endswith. rewrite andb_true_iff, Nat.leb_le, bool_decide_eq_true.
  split.
  - intros [_ Hd]. exists (take (length s - length suffix) s).
    rewrite <- Hd at 2. symmetry. apply take_drop.
  - intros [a ->]. rewrite length_app. split; [lia|].
    replace (length a + length suffix - length suffix)%nat with (length a)
      by lia.
    apply drop_app_length.
Qed.

Lemma list_filter_sublist {A : Type} (f : A -> bool) (l : list A) :
  List.filter f l `sublist_of` l.
Proof.
  induction l as [|x l IH]; simpl; [constructor|].
  destruct (f x); [apply sublist_skip | apply sublist_cons]; exact IH.
Qed.

(** [list_files] returns entries of the reader in index order, never
    anything else: all of them without a pattern or with the empty
    pattern, and with a pattern those whose lower-cased path has the
    lower-cased pattern as a substring. *)
Theorem list_files_selects (lib : StrLib) (self self1 : PFH5Reader)
    (pattern : option str) :
  ensure_index self = Returned self1 ->
  exists es,
    @list_files lib self pattern = Returned (self1, es)
    /\ es `sublist_of` entries self1
    /\ (pattern = None \/ pattern = Some [] -> es = entries self1)
    /\ (forall p, pattern = Some p -> p <> [] ->
        forall e, e ∈ es <->
          e ∈ entries self1
          /\ exists a b,
               str_lower (entry_path e) = a ++ str_lower p ++ b).
Proof.
  intros He. unfold list_files. rewrite He. cbn [mbind outcome_bind].
  destruct pattern as [[|c p]|].
  - exists (entries self1). split; [reflexivity|].
    split; [reflexivity|]. split; [reflexivity|].
    intros p [= <-] Hne. congruence.
  - eexists. split; [reflexivity|].
    split; [apply list_filter_sublist|].
    split; [intros [|]; discriminate|].
    intros p' [= <-] _ e.
    rewrite !list_elem_of_In, filter_In, str_contains_spec. reflexivity.
  - exists (entries self1). split; [reflexivity|].
    split; [reflexivity|]. split; [reflexivity|]. intros p Hp. discriminate.
Qed.

Lemma list_files_selects_witness :
  exists es,
    @list_files posix_ascii plain_reader (Some (str_of_string "B.T"))
    = Returned (plain_reader, es)
    /\ es `sublist_of` entries plain_reader
    /\ (forall e, e ∈ es <->
          e ∈ entries plain_reader
          /\ exists a b,
               ascii_lower (entry_path e)
               = a ++ ascii_lower (str_of_string "B.T") ++ b).
Proof.
  destruct (list_files_selects posix_ascii plain_reader plain_reader
              (Some (str_of_string "B.T")))
    as (es & H1 & H2 & _ & H4).
  - reflexivity.
  - exists es. split; [exact H1|]. split; [exact H2|].
    apply (H4 (str_of_string "B.T")); [reflexivity | discriminate].
Defined.

(** A reader without entries reads the index again at every call: on an
    archive with an encrypted index each [list_files] returns the empty
    list and prints the warning once more, and nothing is remembered. *)
Theorem list_files_encrypted_again (lib : StrLib) (self : PFH5Reader)
    (h : Header) (pattern : option str) :
  header self = Some h ->
  index_encrypted h = true ->
  entries self = [] ->
  @list_files lib self pattern = Returned (warned self h, [])
  /\ entries (warned self h) = []
  /\ stdout (warned self h) = stdout self ++ [encrypted_warning].
Proof.
  intros Hh He Hn. unfold list_files, ensure_index. rewrite Hn.
  rewrite (read_file_index_encrypted self h Hh He).
  cbn [mbind outcome_bind fst warned entries stdout]. rewrite Hn.
  split; [|split; reflexivity].
  destruct pattern as [[|c p]|]; reflexivity.
Qed.

Lemma list_files_encrypted_again_witness :
  @list_files posix_ascii (opened sample_encrypted) None
  = Returned (warned (opened sample_encrypted)
                (layout_header sample_encrypted), [])
  /\ @list_files posix_ascii
       (warned (opened sample_encrypted) (layout_header sample_encrypted))
       None
     = Returned (warned
                   (warned (opened sample_encrypted)
                      (layout_header sample_encrypted))
                   (layout_header sample_encrypted), []).
Proof.
  split.
  - apply (list_files_encrypted_again posix_ascii (opened sample_encrypted)
             (layout_header sample_encrypted) None);
      [reflexivity | vm_compute; reflexivity | reflexivity].
  - apply (list_files_encrypted_again posix_ascii
             (warned (opened sample_encrypted)
                (layout_header sample_encrypted))
             (layout_header sample_encrypted) None);
      [reflexivity | vm_compute; reflexivity | reflexivity].
Defined.

(** The [extract] command takes the first entry, in index order, whose
    path ends with the name given; the test for equality adds nothing, so
    an exact match has no priority over an earlier entry that merely ends
    with the name, and the empty name selects the first entry. *)
Theorem find_entry_first_suffix_match (file_path : str)
    (es : list PackFileEntry) :
  match find_entry file_path es with
  | Some e =>
      exists before after,
        es = before ++ e :: after
        /\ (exists a, entry_path e = a ++ file_path)
        /\ Forall (fun e' => ~ exists a, entry_path e' = a ++ file_path)
             before
  | None =>
      Forall (fun e' => ~ exists a, entry_path e' = a ++ file_path) es
  end.
Proof.
  induction es as [|e es IH]; cbn [find_entry]; [constructor|].
  destruct (bool_decide (entry_path e = file_path)
            || str_endswith (entry_path e) file_path) eqn:Em.
  - exists [], es. split; [reflexivity|]. split; [|constructor].
    apply orb_true_iff in Em as [Heq|Hend].
    + apply bool_decide_eq_true in Heq. exists []. exact Heq.
    + apply str_endswith_spec. exact Hend.
  - apply orb_false_iff in Em as [_ Hend].
    assert (Hno : ~ exists a, entry_path e = a ++ file_path).
    { intros Hex. apply str_endswith_spec in Hex. congruence. }
    destruct (find_entry file_path es) as [e1|].
    + destruct IH as (before & after & -> & Hs & Hb).
      exists (e :: before), after. split; [reflexivity|].
      split; [exact Hs|]. constructor; assumption.
    + constructor; assumption.
Qed.

(** ** Totals and keys of the inventory *)

Section InventoryTotals.
Context `{StrLib}.

Lemma count_entry_insert (m : gmap str ExtInfo) (e : PackFileEntry) :
  count_entry m e
  = <[entry_ext e :=
        mkExtInfo (ext_count (default (mkExtInfo 0 0) (m !! entry_ext e)) + 1)
          (ext_size (default (mkExtInfo 0 0) (m !! entry_ext e))
           + entry_size e)]> m.
Proof.
  apply map_eq. intros k. rewrite count_entry_lookup, lookup_insert.
  destruct (decide (entry_ext e = k)) as [<-|]; [|reflexivity].
  unfold tally, len. simpl. do 2 f_equal; lia.
Qed.

Lemma totals_step (m : gmap str ExtInfo) (e : PackFileEntry) :
  total_count (count_entry m e) = total_count m + 1
  /\ total_ext_size (count_entry m e) = total_ext_size m + entry_size e.
Proof.
  rewrite count_entry_insert. unfold total_count, total_ext_size.
  destruct (m !! entry_ext e) as [i|] eqn:E; simpl default.
  - rewrite <- (insert_delete_eq m).
    rewrite !map_fold_insert_L
      by (try (intros; lia); apply lookup_delete_eq).
    rewrite (map_fold_delete_L _ _ (entry_ext e) i m)
      by (try (intros; lia); exact E).
    rewrite (map_fold_delete_L (fun _ i acc => ext_size i + acc) _
               (entry_ext e) i m)
      by (try (intros; lia); exact E).
    simpl. lia.
  - rewrite !map_fold_insert_L by (try (intros; lia); exact E).
    simpl. lia.
Qed.

Lemma totals_foldl (es : list PackFileEntry) :
  forall m : gmap str ExtInfo,
  total_count (foldl count_entry m es) = total_count m + len es
  /\ total_ext_size (foldl count_entry m es)
     = total_ext_size m + Zsum (map entry_size es).
Proof.
  induction es as [|e es IH]; intros m.
  - unfold len. simpl. lia.
  - cbn [foldl]. destruct (IH (count_entry m e)) as [H1 H2].
    destruct (totals_step m e) as [H3 H4].
    rewrite H1, H2, H3, H4. unfold len. simpl. lia.
Qed.

Lemma sum_sizes_foldl (es : list PackFileEntry) :
  forall acc : Z,
  foldl (fun total entry => total + entry_size entry) acc es
  = acc + Zsum (map entry_size es).
Proof.
  induction es as [|e es IH]; intros acc; simpl; [lia|].
  rewrite IH. lia.
Qed.

(** The inventory adds up: the counts of all extensions sum to the number
    of entries, and their sizes to the total of the entry sizes, which
    are the [file_count] and [total_size] that [get_file_info] reports. *)
Theorem inventory_adds_up (self self1 : PFH5Reader) :
  ensure_index self = Returned self1 ->
  exists info,
    get_file_info self = Returned (self1, info)
    /\ file_count info = len (entries self1)
    /\ total_size info = Zsum (map entry_size (entries self1))
    /\ total_count (extensions info) = file_count info
    /\ total_ext_size (extensions info) = total_size info.
Proof.
  intros He. unfold get_file_info. rewrite He. cbn [mbind outcome_bind].
  eexists. split; [reflexivity|].
  cbn [file_count total_size extensions].
  destruct (totals_foldl (entries self1) ∅) as [H1 H2].
  unfold total_count, total_ext_size in H1, H2.
  rewrite !map_fold_empty in H1, H2.
  unfold sum_sizes. rewrite sum_sizes_foldl.
  split; [reflexivity|]. split; [lia|].
  unfold summarize, total_count, total_ext_size. split; lia.
Qed.

(** No key of the inventory is the empty string, and every key has at
    least one entry and at most all of them; the key [".no_extension"]
    holds the entries without suffix together with those whose
    lower-cased suffix is literally [".no_extension"]. *)
Theorem inventory_keys (es : list PackFileEntry) :
  summarize es !! [] = None
  /\ (forall k i, summarize es !! k = Some i ->
        k <> [] /\ 1 <= ext_count i <= len es
        /\ exists e, e ∈ es /\ entry_ext e = k)
  /\ group no_extension es
     = filter (fun e => str_lower (path_suffix (entry_path e)) = []
                        \/ str_lower (path_suffix (entry_path e))
                           = no_extension) es.
Proof.
  assert (Hne : forall e, entry_ext e <> []).
  { intros e. unfold entry_ext.
    destruct (str_lower (path_suffix (entry_path e))); discriminate. }
  assert (Hlook : forall k,
            summarize es !! k = tally None (group k es)).
  { intros k. unfold summarize. rewrite foldl_count_entry, lookup_empty.
    reflexivity. }
  split; [|split].
  - rewrite Hlook. unfold group.
    replace (filter (fun e => entry_ext e = []) es) with (@nil PackFileEntry);
      [reflexivity|].
    symmetry. clear Hlook. induction es as [|e es IH]; [reflexivity|].
    rewrite filter_cons_False by apply Hne. exact IH.
  - intros k i. rewrite Hlook. unfold tally.
    destruct (group k es) as [|e g] eqn:Eg; [discriminate|].
    intros [= <-]. cbn [default ext_count].
    assert (Hin : e ∈ group k es) by (rewrite Eg; apply list_elem_of_here).
    unfold group in Hin. apply list_elem_of_filter in Hin as [Hk Hin].
    split; [rewrite <- Hk; apply Hne|].
    split; [|eauto].
    assert (Hsub : (length (group k es) <= length es)%nat)
      by apply length_filter.
    rewrite Eg in Hsub. unfold len. simpl length in *. lia.
  - unfold group. apply list_filter_iff. intros e. unfold entry_ext.
    destruct (str_lower (path_suffix (entry_path e))) as [|c s] eqn:El.
    + split; [intros _; left; reflexivity | reflexivity].
    + split.
      * intros Heq. right. exact Heq.
      * intros [Hnil|Heq]; [discriminate | exact Heq].
Qed.
End InventoryTotals.

Lemma inventory_adds_up_witness :
  exists info,
    @get_file_info posix_ascii plain_reader = Returned (plain_reader, info)
    /\ file_count info = 2
    /\ total_count (extensions info) = file_count info
    /\ total_ext_size (extensions info) = total_size info.
Proof.
  destruct (@inventory_adds_up posix_ascii plain_reader plain_reader)
    as (info & H1 & H2 & _ & H4 & H5).
  - reflexivity.
  - exists info. split; [exact H1|]. split; [rewrite H2; reflexivity|].
    split; assumption.
Defined.

(** ** Code points of the decoded paths *)

Lemma if_as_bool (a b c : bool) :
  (if a then b else c) = (a && b) || (negb a && c).
Proof. destruct a, b, c; reflexivity. Qed.

Ltac utf8_cases :=
  repeat (cbv beta iota;
          match goal with
          | |- (if ?b then _ else _) = _ -> _ =>
              let E := fresh "E" in
              destruct b eqn:E; rewrite ?if_as_bool in E
          end).

Lemma utf8_step_scalar (s : list Z) (ch : Z) (n : nat) :
  Forall (fun c => 0 < c < 256) s ->
  utf8_step s = Decoded ch n -> scalar_value ch.
Proof.
  intros Hall. unfold utf8_step, is_continuation, scalar_value.
  destruct s as [|c [|c2 [|c3 [|c4 t]]]];
    repeat match goal with
           | H : Forall _ (_ :: _) |- _ => apply Forall_cons in H as [? H]
           end;
    utf8_cases; cbv beta iota; intros Hd; try discriminate Hd;
    injection Hd as <- _;
    rewrite ?Z.shiftl_mul_pow2 by lia;
    change (2 ^ 6) with 64; change (2 ^ 12) with 4096;
    change (2 ^ 18) with 262144; lia.
Qed.

Lemma utf8_scan_scalar (s : list Z) :
  forall skip : nat,
  Forall (fun c => 0 < c < 256) s ->
  Forall scalar_value (omap id (utf8_scan skip s)).
Proof.
  induction s as [|c t IH]; intros skip Hall; [constructor|].
  pose proof Hall as Hall'. apply Forall_cons in Hall' as [_ Ht].
  cbn [utf8_scan]. destruct skip as [|k]; [|apply IH; exact Ht].
  destruct (utf8_step (c :: t)) as [ch n|n] eqn:Es.
  - cbn. constructor; [|apply IH; exact Ht].
    exact (utf8_step_scalar _ _ _ Hall Es).
  - cbn. apply IH. exact Ht.
Qed.

Lemma decode_path_scalar (b : bytes) :
  Byte.x00 ∉ b -> Forall scalar_value (decode_path b).
Proof.
  intros Hz. rewrite decode_path_scan. apply utf8_scan_scalar.
  apply Forall_map, Forall_forall. intros x Hx. cbn.
  pose proof (byte_val_range x). 
  assert (byte_val x <> 0); [|lia].
  intros E. apply byte_val_zero in E. subst x. contradiction.
Qed.

(** The path of a descriptor never holds U+0000, a surrogate or a value
    above U+10FFFF: every code point of it is a Unicode scalar value. *)
Theorem paths_hold_scalar_values (self self' : PFH5Reader)
    (es : list PackFileEntry) (e : PackFileEntry) (c : Z) :
  read_file_index self = Returned (self', es) ->
  e ∈ es ->
  c ∈ entry_path e ->
  0 < c <= 0x10FFFF /\ ~ (0xD800 <= c <= 0xDFFF).
Proof.
  intros E He Hc.
  destruct (read_file_index_inv _ _ _ E)
    as (self1 & h & _ & _ & _ & [(_ & -> & _)|(_ & _ & Hp & _)]).
  { apply elem_of_nil in He. contradiction. }
  destruct (parse_file_entries_sound h (index_bytes self1 h))
    as (rs & rest & Hwf & _ & _ & Hs & _).
  rewrite Hs in Hp. injection Hp as <-.
  assert (Hpaths : entry_path e ∈ map entry_path (entries_of h 0 rs)).
  { apply list_elem_of_In, in_map, list_elem_of_In. exact He. }
  rewrite entries_of_paths in Hpaths.
  apply list_elem_of_In, in_map_iff in Hpaths as (r & Hr & Hin).
  apply list_elem_of_In in Hin.
  rewrite Forall_forall in Hwf. destruct (Hwf r Hin) as (Hz & _).
  pose proof (decode_path_scalar _ Hz) as Hsc.
  rewrite Hr, Forall_forall in Hsc. exact (Hsc c Hc).
Qed.

Lemma paths_hold_scalar_values_witness :
  Forall (fun c => 0 < c <= 0x10FFFF /\ ~ (0xD800 <= c <= 0xDFFF))
    (entry_path entry_a).
Proof.
  apply Forall_forall. intros c.
  apply (paths_hold_scalar_values (new_reader sample_plain) plain_reader
           [entry_a; entry_b] entry_a c).
  - vm_compute. reflexivity.
  - apply list_elem_of_here.
Defined.

Lemma decode_path_ascii (b : bytes) :
  Forall (fun c => byte_val c < 0x80) b -> decode_path b = map byte_val b.
Proof.
  induction 1 as [|c b Hc _ IH]; [reflexivity|].
  rewrite decode_path_cons_ascii by exact Hc. rewrite IH. reflexivity.
Qed.

(** Paths written in ASCII come back as they are: when the path bytes of
    the records are all below 128, the descriptors carry exactly those
    bytes as code points. *)
Theorem ascii_paths_unchanged (h : Header) (rs : list IndexRecord)
    (tail : bytes) :
  Forall wf_record rs ->
  Forall (fun r => Forall (fun c => byte_val c < 0x80) (rec_path r)) rs ->
  Z.of_nat (length rs) = file_index_count h ->
  exists es,
    parse_file_entries h (encode_index (has_timestamps h) rs ++ tail)
    = Returned es
    /\ map entry_path es = map (fun r => map byte_val (rec_path r)) rs.
Proof.
  intros Hwf Hascii Hn. exists (entries_of h 0 rs). split.
  - apply parse_file_entries_encode; assumption.
  - rewrite entries_of_paths. apply map_ext_Forall.
    eapply Forall_impl; [exact Hascii|].
    intros r Hr. apply decode_path_ascii. exact Hr.
Qed.

Lemma ascii_paths_unchanged_witness :
  exists es,
    parse_file_entries (layout_header sample_plain)
      (encode_index (has_timestamps (layout_header sample_plain))
         [rec_a; rec_b] ++ [])
    = Returned es
    /\ map entry_path es
       = map (fun r => map byte_val (rec_path r)) [rec_a; rec_b].
Proof.
  apply (ascii_paths_unchanged (layout_header sample_plain) [rec_a; rec_b] []).
  - by_evaluation.
  - by_evaluation.
  - vm_compute. reflexivity.
Defined.

(** ** Operations put together *)

(** The inventory of a built archive: [get_file_info] on a fresh reader
    reads the index and reports as many files as there are members and,
    as total size, the sum of the lengths of their data; the counts and
    sizes per extension add up to the same. *)
Theorem inventory_of_built_archive (lib : StrLib) (bitmask : Z)
    (skipped : bytes) (ms : list Member) :
  buildable bitmask skipped ms ->
  exists info,
    @get_file_info lib (new_reader (build_archive bitmask skipped ms))
    = Returned (built_reader bitmask skipped ms, info)
    /\ file_count info = len ms
    /\ total_size info = Zsum (map (fun m => len (member_data m)) ms)
    /\ total_count (extensions info) = len ms
    /\ total_ext_size (extensions info)
       = Zsum (map (fun m => len (member_data m)) ms).
Proof.
  intros Hbuild.
  destruct (build_archive_index bitmask skipped ms Hbuild) as (Hread & _ & _).
  unfold get_file_info, ensure_index. cbn [new_reader entries].
  fold (new_reader (build_archive bitmask skipped ms)). rewrite Hread.
  cbn [mbind outcome_bind fst].
  eexists. split; [reflexivity|].
  cbn [file_count total_size extensions].
  set (es := entries (built_reader bitmask skipped ms)).
  assert (Hlen : len es = len ms).
  { unfold es, built_reader, indexed, len. cbn [entries].
    rewrite entries_of_length, length_map. reflexivity. }
  assert (Hsizes : map entry_size es
                   = map (fun m => len (member_data m)) ms).
  { unfold es, built_reader, indexed. cbn [entries].
    rewrite entries_of_sizes, map_map. reflexivity. }
  destruct (@totals_foldl lib es ∅) as [H1 H2].
  unfold total_count, total_ext_size in H1, H2.
  rewrite !map_fold_empty in H1, H2.
  unfold sum_sizes. rewrite sum_sizes_foldl, Hsizes in *.
  split; [exact Hlen|]. split; [lia|].
  unfold summarize, total_count, total_ext_size. split; lia.
Qed.

Lemma inventory_of_built_archive_witness :
  exists info,
    @get_file_info posix_ascii
      (new_reader (build_archive 0x100413 (repeat Byte.xee 25) sample_members))
    = Returned (built_reader 0x100413 (repeat Byte.xee 25) sample_members,
                info)
    /\ file_count info = 3
    /\ total_size info = 15.
Proof.
  destruct (inventory_of_built_archive posix_ascii 0x100413
              (repeat Byte.xee 25) sample_members)
    as (info & H1 & H2 & H3 & _).
  - split; [by_evaluation|]. split; [vm_compute; reflexivity|].
    split; [vm_compute; discriminate|]. split; [by_evaluation|].
    split; [by_evaluation|]. split; [by_evaluation|].
    unfold wf_member. by_evaluation.
  - exists info. split; [exact H1|]. split; [exact H2 | exact H3].
Defined.

(** On a file that is no pack file (shorter than 32 bytes, or without the
    tag) every operation of a fresh reader fails with the [ValueError] of
    [read_header]. *)
Theorem operations_raise_on_bad_header (lib : StrLib) (self : PFH5Reader)
    (entry : PackFileEntry) (pattern : option str) :
  header self = None ->
  entries self = [] ->
  len (pack_file self) < 32 \/ slice (pack_file self) 0 4 <> PFH5_magic ->
  exists msg,
    read_header self = Raised (ValueError msg)
    /\ read_file_index self = Raised (ValueError msg)
    /\ extract_file self entry = Raised (ValueError msg)
    /\ @list_files lib self pattern = Raised (ValueError msg)
    /\ @get_file_info lib self = Raised (ValueError msg).
Proof.
  intros Hh Hn Hbad.
  assert (Hr : exists msg, read_header self = Raised (ValueError msg)).
  { destruct Hbad as [Hs|Hm].
    - eexists. apply read_header_short. exact Hs.
    - destruct (Z.lt_ge_cases (len (pack_file self)) 32) as [Hs|Hge].
      + eexists. apply read_header_short. exact Hs.
      + eexists. apply read_header_bad_magic; assumption. }
  destruct Hr as [msg Hr]. exists msg.
  assert (Hi : read_file_index self = Raised (ValueError msg)).
  { unfold read_file_index. rewrite Hh, Hr. reflexivity. }
  assert (He : ensure_index self = Raised (ValueError msg)).
  { unfold ensure_index. rewrite Hn, Hi. reflexivity. }
  split; [exact Hr|]. split; [exact Hi|].
  unfold extract_file, list_files, get_file_info. rewrite He.
  repeat split; reflexivity.
Qed.

Lemma operations_raise_on_bad_header_witness :
  exists msg,
    read_header (new_reader (bytes_of_string "PFH5 but short"))
    = Raised (ValueError msg)
    /\ extract_file (new_reader (bytes_of_string "PFH5 but short")) entry_a
       = Raised (ValueError msg).
Proof.
  destruct (operations_raise_on_bad_header posix_ascii
              (new_reader (bytes_of_string "PFH5 but short")) entry_a None)
    as (msg & H1 & _ & H3 & _).
  - reflexivity.
  - reflexivity.
  - left. vm_compute. reflexivity.
  - exists msg. split; assumption.
Defined.

(** Extracting a member that the index lists and whose data starts
    inside the file never fails, also when the file ends before the
    member does: for every descriptor returned by [read_file_index] on a
    fresh reader whose position is not past the end of the file,
    [extract_file] returns the bytes of the file from that position on,
    as many as the size of the descriptor or as are left in the file,
    and leaves the reader as it is. *)
Theorem extract_listed_member_returns (file : bytes) (ready : PFH5Reader)
    (es : list PackFileEntry) (e : PackFileEntry) :
  read_file_index (new_reader file) = Returned (ready, es) ->
  e ∈ es ->
  inside_file file (file_data_offset ready + entry_offset e) ->
  exists data,
    extract_file ready e = Returned (ready, data)
    /\ data = take (Z.to_nat (entry_size e))
                (drop (Z.to_nat (file_data_offset ready + entry_offset e))
                   file)
    /\ len data
       = Z.min (entry_size e)
           (len file - (file_data_offset ready + entry_offset e))
    /\ uint32 (entry_size e).
Proof.
  intros E He Hin.
  destruct (read_file_index_inv _ _ _ E)
    as (self1 & h & Hhd & _ & _ & [(_ & -> & _)|(Henc & Hst & Hp & ->)]).
  { apply elem_of_nil in He. contradiction. }
  destruct Hhd as [[Hsome _]|[_ Hr]]; [discriminate|].
  destruct (read_header_new _ _ _ Hr) as (Hlen & _ & -> & ->).
  destruct (layout_header_range file Hlen) as (_ & _ & _ & _ & Hfi & _).
  set (h := layout_header file) in *.
  destruct (parse_file_entries_sound h (index_bytes (opened file) h))
    as (rs & rest & Hwf & _ & _ & Hs & _).
  rewrite Hs in Hp. injection Hp as <-.
  pose proof (entries_of_invariants h rs 0 Hwf ltac:(lia)
                ltac:(intros _; reflexivity)) as Hall.
  rewrite Forall_forall in Hall.
  destruct (Hall e He) as ([Hs0 _] & Ho & _).
  set (ready := indexed (opened file) h (entries_of h 0 rs)) in *.
  assert (Hfdo : 0 <= file_data_offset ready).
  { unfold ready, indexed. cbn [file_data_offset].
    unfold index_start, uint32 in *. lia. }
  assert (Hens : ensure_index ready = Returned ready).
  { unfold ensure_index, ready, indexed. cbn [entries].
    destruct (entries_of h 0 rs); [|reflexivity].
    apply elem_of_nil in He. contradiction. }
  destruct Hin as [_ Hin].
  eexists. split; [|split; [reflexivity|split]].
  - unfold extract_file. rewrite Hens. cbn [mbind outcome_bind].
    unfold file_seek, file_read.
    destruct (Z.ltb_spec (file_data_offset ready + entry_offset e) 0); [lia|].
    cbn [mbind outcome_bind].
    destruct (Z.ltb_spec (entry_size e) 0); [lia|]. reflexivity.
  - unfold len in *. rewrite length_take, length_drop.
    generalize dependent (file_data_offset ready). intros. lia.
  - destruct (Hall e He) as (Hu & _). exact Hu.
Qed.

Lemma extract_listed_member_returns_witness :
  exists data,
    extract_file short_reader entry_b = Returned (short_reader, data)
    /\ len data = Z.min 2 1.
Proof.
  destruct (extract_listed_member_returns sample_short_data short_reader
              [entry_a; entry_b] entry_b)
    as (data & H1 & _ & H3 & _).
  - vm_compute. reflexivity.
  - apply list_elem_of_further, list_elem_of_here.
  - by_evaluation.
  - exists data. split; [exact H1 | exact H3].
Defined.

(** On an archive with an encrypted index the start of the data region is
    never computed, so [extract_file] on a fresh reader counts the offset
    of the descriptor from the beginning of the file and returns header
    bytes for small offsets; stated for descriptors with an offset inside
    the file and a size in the unsigned 32-bit range. *)
Theorem extract_on_encrypted_reads_file_start (file : bytes)
    (self1 : PFH5Reader) (h : Header) (e : PackFileEntry) :
  read_header (new_reader file) = Returned (self1, h) ->
  index_encrypted h = true ->
  inside_file file (entry_offset e) ->
  uint32 (entry_size e) ->
  extract_file (new_reader file) e
  = Returned (mkReader file (Some h) [] 0 [encrypted_warning],
              take (Z.to_nat (entry_size e))
                (drop (Z.to_nat (entry_offset e)) file)).
Proof.
  intros Hr He [Ho _] [Hs _].
  destruct (read_header_new _ _ _ Hr) as (_ & _ & Hh & Hs1).
  unfold extract_file, ensure_index. cbn [new_reader entries].
  fold (new_reader file).
  rewrite (read_file_index_fresh (new_reader file) _ _ eq_refl Hr).
  rewrite (read_file_index_encrypted self1 h); [|rewrite Hs1, Hh|exact He];
    [|reflexivity].
  rewrite Hs1. cbn [mbind outcome_bind fst warned opened set_header new_reader
                     pack_file entries file_data_offset stdout header].
  unfold file_seek, file_read. rewrite Z.add_0_l.
  destruct (Z.ltb_spec (entry_offset e) 0); [lia|]. cbn [mbind outcome_bind].
  destruct (Z.ltb_spec (entry_size e) 0); [lia|]. reflexivity.
Qed.

Lemma extract_on_encrypted_reads_file_start_witness :
  extract_file (new_reader sample_encrypted) (mkEntry [] 4 0 None)
  = Returned (mkReader sample_encrypted
                (Some (layout_header sample_encrypted)) [] 0
                [encrypted_warning],
              take (Z.to_nat 4) (drop (Z.to_nat 0) sample_encrypted))
  /\ take (Z.to_nat 4) (drop (Z.to_nat 0) sample_encrypted) = PFH5_magic.
Proof.
  split; [|vm_compute; reflexivity].
  apply (extract_on_encrypted_reads_file_start sample_encrypted
           (opened sample_encrypted) (layout_header sample_encrypted)
           (mkEntry [] 4 0 None)).
  - vm_compute. reflexivity.
  - vm_compute. reflexivity.
  - by_evaluation.
  - by_evaluation.
Defined.
